(** * IGParserApp: the extraction, normalisation and metrics pipeline

    A shallow embedding of the pure core of [IGParserApp.py]:
    [parse_username], [extract_hashtags], [extract_mentions],
    [media_to_row], [compute_virality], the ranking step and the output
    file names of [_run_parser_thread], with the properties the
    specification states about them and further properties of the code.

    Conventions of the embedding.
    - Text is [string]; a character is a code point below 256 and the
      character tables ([isspace], [word_char]) are Python's for that range.
    - A Python value that ends up in a table cell is a [value].
    - A float64 is a [num]: a primitive binary64 float, with the IEEE 754
      operations.  An int64 is a [Z] in the int64 range, and int64
      arithmetic wraps around.  Python integers beyond int64 are outside
      the tables modelled here. *)

From Stdlib Require Import Bool Arith ZArith Lia List String Ascii.
From Stdlib Require Import Sorting.Sorted Sorting.Permutation.
From Stdlib Require OrdersEx.
From Stdlib Require Import RelationClasses.
From Stdlib Require Import Floats.
Import ListNotations.
Local Open Scope list_scope.
Local Open Scope string_scope.
#[local] Set Warnings "-register-all,-inexact-float".

(* ================================================================= *)
(** ** Text *)

Module Text.

Definition ord (c : ascii) : nat := nat_of_ascii c.

Definition in_range (lo hi c : ascii) : bool :=
  (ord lo <=? ord c)%nat && (ord c <=? ord hi)%nat.

(** [str.isspace] on code points below 256: TAB..CR, FS..US, space,
    NEL (133) and NBSP (160). *)
Definition isspace (c : ascii) : bool :=
  let n := ord c in
  ((9 <=? n) && (n <=? 13) || (28 <=? n) && (n <=? 32)
   || (n =? 133) || (n =? 160))%nat.

(** The set [[A-Za-z0-9_.]] of [PROFILE_RE] and of [extract_mentions]. *)
Definition handle_char (c : ascii) : bool :=
  in_range "A" "Z" c || in_range "a" "z" c || in_range "0" "9" c
  || Ascii.eqb c "_" || Ascii.eqb c ".".

(** [\w] of a text pattern: alphanumeric or underscore.  Below 128 this is
    [[A-Za-z0-9_]]; from 128 to 255 the alphanumerics are 170, 178, 179,
    181, 185, 186, 188..190, 192..214, 216..246 and 248..255. *)
Definition word_char (c : ascii) : bool :=
  let n := ord c in
  in_range "A" "Z" c || in_range "a" "z" c || in_range "0" "9" c
  || Ascii.eqb c "_"
  || ((n =? 170) || (n =? 178) || (n =? 179) || (n =? 181) || (n =? 185)
      || (n =? 186) || (188 <=? n) && (n <=? 190)
      || (192 <=? n) && (n <=? 214) || (216 <=? n) && (n <=? 246)
      || (248 <=? n) && (n <=? 255))%nat.

(** [s.lstrip()] / [s.lstrip(chars)]: drop the leading characters in
    the set. *)
Fixpoint lstrip (drop : ascii -> bool) (s : string) : string :=
  match s with
  | String c s' => if drop c then lstrip drop s' else s
  | EmptyString => EmptyString
  end.

(** [s.rstrip()]: drop the trailing characters in the set. *)
Fixpoint rstrip (drop : ascii -> bool) (s : string) : string :=
  match s with
  | String c s' =>
      match rstrip drop s' with
      | EmptyString => if drop c then EmptyString else String c EmptyString
      | r => String c r
      end
  | EmptyString => EmptyString
  end.

(** [s.strip()]: surrounding whitespace removed. *)
Definition strip (s : string) : string := rstrip isspace (lstrip isspace s).

(** Every character of [s] is in the set. *)
Fixpoint all_in (cls : ascii -> bool) (s : string) : bool :=
  match s with
  | String c s' => cls c && all_in cls s'
  | EmptyString => true
  end.

(** [s] does not begin with a character of the set. *)
Definition not_starting (cls : ascii -> bool) (s : string) : bool :=
  match s with
  | String c _ => negb (cls c)
  | EmptyString => true
  end.

(** The longest prefix of [s] made of characters of the set. *)
Fixpoint take_while (cls : ascii -> bool) (s : string) : string :=
  match s with
  | String c s' => if cls c then String c (take_while cls s') else EmptyString
  | EmptyString => EmptyString
  end.

(** What is left of [s] after that prefix. *)
Fixpoint drop_while (cls : ascii -> bool) (s : string) : string :=
  match s with
  | String c s' => if cls c then drop_while cls s' else s
  | EmptyString => EmptyString
  end.

(** [s] does not end with a character of the set. *)
Fixpoint not_ending (cls : ascii -> bool) (s : string) : bool :=
  match s with
  | String c EmptyString => negb (cls c)
  | String _ s' => not_ending cls s'
  | EmptyString => true
  end.

End Text.

(* ================================================================= *)
(** ** Regular expressions

    The fragment of Python's [re] the program uses, with its backtracking
    semantics: literals, concatenation, the greedy [?] and the greedy [+]
    over a character set, and one capturing group. *)

Module Re.

Inductive regex : Type :=
| Lit (s : string)
| Cat (r1 r2 : regex)
| Opt (r : regex)
| Plus (cls : ascii -> bool)
| Group (r : regex).

(** A successful match: the text after it and what group 1 captured. *)
Record hit : Type := Hit { rest : string; group1 : option string }.

Fixpoint strip_prefix (p s : string) : option string :=
  match p with
  | EmptyString => Some s
  | String a p' =>
      match s with
      | String b s' => if Ascii.eqb a b then strip_prefix p' s' else None
      | EmptyString => None
      end
  end.

(** [cls+] followed by [k]: take as many characters as possible, and give
    one back at a time while the rest of the pattern fails. *)
Fixpoint plus_greedy (cls : ascii -> bool) (s : string)
         (k : string -> option hit) : option hit :=
  match s with
  | String c s' =>
      if cls c then
        match plus_greedy cls s' k with
        | Some h => Some h
        | None => k s'
        end
      else None
  | EmptyString => None
  end.

(** The part of [s] consumed when [s'] is what is left of it. *)
Definition consumed (s s' : string) : string :=
  substring 0 (String.length s - String.length s') s.

(** [run r s g k]: match [r] at the start of [s], then the rest of the
    pattern [k]; [g] is group 1 so far. *)
Fixpoint run (r : regex) (s : string) (g : option string)
         (k : string -> option string -> option hit) : option hit :=
  match r with
  | Lit p =>
      match strip_prefix p s with
      | Some s' => k s' g
      | None => None
      end
  | Cat r1 r2 => run r1 s g (fun s' g' => run r2 s' g' k)
  | Opt r1 =>
      match run r1 s g k with
      | Some h => Some h
      | None => k s g
      end
  | Plus cls => plus_greedy cls s (fun s' => k s' g)
  | Group r1 => run r1 s g (fun s' _ => k s' (Some (consumed s s')))
  end.

(** The end of the pattern: the match is found. *)
Definition final (s' : string) (g : option string) : option hit :=
  Some (Hit s' g).

(** [pattern.match(s)]: a match anchored at the start of [s] only. *)
Definition re_match (r : regex) (s : string) : option hit :=
  run r s None final.

(** [m.group(1)].  Every pattern of this program captures group 1 in every
    match, so the case of a group that took no part does not arise. *)
Definition group (h : hit) : string :=
  match group1 h with
  | Some x => x
  | None => EmptyString
  end.

(** [re.findall(pattern, s)] for a pattern with one group: scan from the
    left; at a match keep group 1 and go on after the match, otherwise move
    one character on.  The patterns of this program match at least two
    characters, so the rule for empty matches is not needed. *)
Fixpoint findall_from (fuel : nat) (r : regex) (s : string) : list string :=
  match fuel with
  | O => []
  | S fuel' =>
      match re_match r s with
      | Some h => group h :: findall_from fuel' r (rest h)
      | None =>
          match s with
          | String _ s' => findall_from fuel' r s'
          | EmptyString => []
          end
      end
  end.

Definition findall (r : regex) (s : string) : list string :=
  findall_from (S (String.length s)) r s.

End Re.

(* ================================================================= *)
(** ** Identifier parser and text entity extractor *)

Import Text Re.

(** [PROFILE_RE = re.compile(r"(?:https?://)?(?:www\.)?instagram\.com/([A-Za-z0-9_.]+)/?")] *)
Definition PROFILE_RE : regex :=
  Cat (Opt (Cat (Lit "http") (Cat (Opt (Lit "s")) (Lit "://"))))
 (Cat (Opt (Lit "www."))
 (Cat (Lit "instagram.com/")
 (Cat (Group (Plus handle_char))
      (Opt (Lit "/"))))).

Definition is_at (c : ascii) : bool := Ascii.eqb c "@".

Definition parse_username (value : string) : string :=
  match re_match PROFILE_RE (strip value) with
  | Some m => group m
  | None => lstrip is_at (strip value)
  end.

(** [r"#(\w+)"] and [r"@([A-Za-z0-9_.]+)"]. *)
Definition HASHTAG_RE : regex := Cat (Lit "#") (Group (Plus word_char)).
Definition MENTION_RE : regex := Cat (Lit "@") (Group (Plus handle_char)).

(** [set(l)] then [sorted(...)]: the set is kept as a duplicate-free
    list; [sorted] puts it in ascending code point order
    ([String.leb]), whatever order the set is iterated in. *)
Definition py_set (l : list string) : list string := nodup string_dec l.

Fixpoint insert_sorted (x : string) (l : list string) : list string :=
  match l with
  | [] => [x]
  | y :: l' => if String.leb x y then x :: l else y :: insert_sorted x l'
  end.

Definition sorted (l : list string) : list string :=
  fold_right insert_sorted [] l.

(** The text argument is [None] or a string ([text: str]); [not text]
    holds for [None] and for the empty string. *)
Definition extract_hashtags (text : option string) : list string :=
  match text with
  | None | Some EmptyString => []
  | Some t => sorted (py_set (findall HASHTAG_RE t))
  end.

Definition extract_mentions (text : option string) : list string :=
  match text with
  | None | Some EmptyString => []
  | Some t => sorted (py_set (findall MENTION_RE t))
  end.

(** *** What the specification says of these functions *)

(** [s] begins like a profile URL whose handle is [h]: an optional
    [http://] or [https://], an optional [www.], [instagram.com/], then
    [h], a run of handle characters that is not empty and goes as far as it
    can; anything may follow. *)
Definition profile_url (s h : string) : Prop :=
  exists scheme www tail,
    s = scheme ++ www ++ "instagram.com/" ++ h ++ tail /\
    (scheme = "" \/ scheme = "http://" \/ scheme = "https://") /\
    (www = "" \/ www = "www.") /\
    h <> "" /\
    all_in handle_char h = true /\
    not_starting handle_char tail = true.

(** [x] is a run of characters of [cls] in [t] that follows the character
    [mark], is not empty and goes as far as it can. *)
Definition tagged (mark : ascii) (cls : ascii -> bool) (t x : string) : Prop :=
  exists pre post,
    t = pre ++ String mark (x ++ post) /\
    x <> "" /\
    all_in cls x = true /\
    not_starting cls post = true.

(** [a] comes strictly before [b] in code point order. *)
Definition codepoint_lt (a b : string) : Prop := String.ltb a b = true.

(** Strictly ascending in code point order, so without duplicates. *)
Definition ascending (l : list string) : Prop := StronglySorted codepoint_lt l.

(** The shape of both entity patterns: [mark] and a captured [cls+]. *)
Definition tag_re (mark : ascii) (cls : ascii -> bool) : regex :=
  Cat (Lit (String mark "")) (Group (Plus cls)).

(** *** [PROFILE_RE] read from left to right, without backtracking *)

(** The pattern after the scheme, after [www.] and after the host. *)
Definition handle_re : regex := Cat (Group (Plus handle_char)) (Opt (Lit "/")).
Definition host_re : regex := Cat (Lit "instagram.com/") handle_re.
Definition www_re : regex := Cat (Opt (Lit "www.")) host_re.

Definition strip_opt (p s : string) : string :=
  match strip_prefix p s with
  | Some r => r
  | None => s
  end.

Definition strip_scheme (s : string) : string :=
  match strip_prefix "https://" s with
  | Some r => r
  | None => strip_opt "http://" s
  end.

Definition profile_direct (s : string) : option hit :=
  match strip_prefix "instagram.com/" (strip_opt "www." (strip_scheme s)) with
  | Some s3 =>
      match take_while handle_char s3 with
      | EmptyString => None
      | String _ _ =>
          Some (Hit (strip_opt "/" (drop_while handle_char s3))
                    (Some (take_while handle_char s3)))
      end
  | None => None
  end.

(* ================================================================= *)
(** ** Python values and post objects *)

(** A float64: a primitive binary64 float, with [nan], the infinities and
    the signed zeros, and the IEEE 754 operations, which round to nearest,
    ties to even. *)
Definition num : Type := float.

Definition NaN : num := PrimFloat.nan.

(** The double nearest to an integer, ties to even: what NumPy makes of an
    int64, and of the follower count, before it divides. *)
Definition float_of_Z (n : Z) : num :=
  SF2Prim (binary_normalize prec emax n 0 false).

Definition num_add (x y : num) : num := PrimFloat.add x y.

Definition num_div (x y : num) : num := PrimFloat.div x y.

(** The int64 range, and the int64 an integer wraps around to. *)
Definition in_int64 (n : Z) : bool :=
  ((- 2 ^ 63 <=? n) && (n <? 2 ^ 63))%Z.

Definition wrap64 (n : Z) : Z := ((n + 2 ^ 63) mod 2 ^ 64 - 2 ^ 63)%Z.

Inductive value : Type :=
| VNone
| VBool (b : bool)
| VInt (n : Z)
| VFloat (x : num)
| VStr (s : string)
| VList (l : list value)
| VTuple (l : list value)
| VDate (iso : string)                 (* exposes [isoformat()], which returns [iso] *)
| VObj (attrs : list (string * value)). (* any other object, by its attributes *)

(** [bool(v)]. *)
Definition truthy (v : value) : bool :=
  match v with
  | VNone => false
  | VBool b => b
  | VInt n => negb (n =? 0)%Z
  | VFloat x => negb (PrimFloat.eqb x PrimFloat.zero)
  | VStr s => negb (s =? "")%string
  | VList l | VTuple l => negb (Nat.eqb (List.length l) 0)
  | VDate _ => true
  | VObj _ => true
  end.

(** [a or b]. *)
Definition py_or (a b : value) : value := if truthy a then a else b.

Definition isinstance_list (v : value) : bool :=
  match v with
  | VList _ => true
  | _ => false
  end.

(** [len(v)] of a sequence. *)
Definition py_len (v : value) : Z :=
  match v with
  | VList l | VTuple l => Z.of_nat (List.length l)
  | _ => 0%Z
  end.

Fixpoint lookup {A : Type} (name : string) (d : list (string * A)) : option A :=
  match d with
  | [] => None
  | (k, v) :: d' => if (k =? name)%string then Some v else lookup name d'
  end.

(** [getattr(obj, name, None)] on a value. *)
Definition getattr (obj : value) (name : string) : value :=
  match obj with
  | VObj attrs =>
      match lookup name attrs with
      | Some v => v
      | None => VNone
      end
  | _ => VNone
  end.

(** A post object: for each attribute [media_to_row] reads, [None] when
    the object does not expose it and [Some v] when it does.  The caption
    and the shortcode are text or [None] ([extract_hashtags] takes
    [text: str]; the shortcode is pasted into the URL as it is). *)
Record Media : Type := {
  m_id : option value;
  m_pk : option value;
  m_code : option (option string);
  m_taken_at : option value;
  m_media_type : option value;
  m_product_type : option value;
  m_like_count : option value;
  m_comment_count : option value;
  m_view_count : option value;
  m_play_count : option value;
  m_caption_text : option (option string);
  m_video_duration : option value;
  m_thumbnail_width : option value;
  m_width : option value;
  m_thumbnail_height : option value;
  m_height : option value;
  m_location : option value;
  m_is_paid_partnership : option value;
  m_commenting_disabled_for_viewer : option value;
  m_thumbnail_url : option value;
  m_video_url : option value;
  m_resources : option value
}.

(** The inner [get(obj, name, default=None)]. *)
Definition get (a : option value) : value :=
  match a with
  | Some v => v
  | None => VNone
  end.

Definition get_text (a : option (option string)) : option string :=
  match a with
  | Some t => t
  | None => None
  end.

Definition text_value (t : option string) : value :=
  match t with
  | Some s => VStr s
  | None => VNone
  end.

(** [d[k] = v] on a mapping kept in insertion order: the value of an
    existing key is replaced in place, a new key goes to the end. *)
Fixpoint assoc_set {A : Type} (k : string) (v : A) (d : list (string * A))
  : list (string * A) :=
  match d with
  | [] => [(k, v)]
  | (k', v') :: d' =>
      if (k' =? k)%string then (k, v) :: d' else (k', v') :: assoc_set k v d'
  end.

(** A Python dict. *)
Definition dict : Type := list (string * value).

Definition dict_set (k : string) (v : value) (d : dict) : dict :=
  assoc_set k v d.

Definition media_to_row (m : Media) : dict :=
  let caption := get_text (m_caption_text m) in
  let taken_at := get (m_taken_at m) in
  let taken_at_iso :=
    match taken_at with
    | VDate iso => VStr iso
    | _ => taken_at
    end in
  let code := get_text (m_code m) in
  let post_url :=
    match code with
    | Some c =>
        if truthy (VStr c)
        then VStr ("https://www.instagram.com/p/" ++ c ++ "/")
        else VNone
    | None => VNone
    end in
  let width := py_or (get (m_thumbnail_width m)) (get (m_width m)) in
  let height := py_or (get (m_thumbnail_height m)) (get (m_height m)) in
  let duration := get (m_video_duration m) in
  let loc := get (m_location m) in
  let location_name :=
    if truthy loc then py_or (getattr loc "name") (getattr loc "slug")
    else VNone in
  let d : dict :=
    [ ("id", get (m_id m));
      ("pk", get (m_pk m));
      ("shortcode", text_value code);
      ("url", post_url);
      ("taken_at", taken_at_iso);
      ("media_type", get (m_media_type m));
      ("product_type", get (m_product_type m));
      ("like_count", get (m_like_count m));
      ("comment_count", get (m_comment_count m));
      ("view_count", py_or (get (m_view_count m)) (get (m_play_count m)));
      ("play_count", get (m_play_count m));
      ("caption", text_value caption);
      ("hashtags", VStr (String.concat ", " (extract_hashtags caption)));
      ("mentions", VStr (String.concat ", " (extract_mentions caption)));
      ("duration_sec", duration);
      ("width", width);
      ("height", height);
      ("location", location_name);
      ("is_paid_partnership", get (m_is_paid_partnership m));
      ("is_comments_disabled", get (m_commenting_disabled_for_viewer m));
      ("thumbnail_url", get (m_thumbnail_url m));
      ("video_url", get (m_video_url m)) ] in
  let resources := get (m_resources m) in
  if truthy resources && isinstance_list resources
  then dict_set "carousel_count" (VInt (py_len resources)) d
  else dict_set "carousel_count" VNone d.

(** The keys of a row, in order. *)
Definition ROW_KEYS : list string :=
  [ "id"; "pk"; "shortcode"; "url"; "taken_at"; "media_type"; "product_type";
    "like_count"; "comment_count"; "view_count"; "play_count"; "caption";
    "hashtags"; "mentions"; "duration_sec"; "width"; "height"; "location";
    "is_paid_partnership"; "is_comments_disabled"; "thumbnail_url";
    "video_url"; "carousel_count" ].

(** The post object that exposes nothing. *)
Definition bare : Media :=
  {| m_id := None; m_pk := None; m_code := None; m_taken_at := None;
     m_media_type := None; m_product_type := None; m_like_count := None;
     m_comment_count := None; m_view_count := None; m_play_count := None;
     m_caption_text := None; m_video_duration := None;
     m_thumbnail_width := None; m_width := None; m_thumbnail_height := None;
     m_height := None; m_location := None; m_is_paid_partnership := None;
     m_commenting_disabled_for_viewer := None; m_thumbnail_url := None;
     m_video_url := None; m_resources := None |}.

(** A post object that exposes [id] and [pk] only. *)
Definition only_id_pk (i p : value) : Media :=
  {| m_id := Some i; m_pk := Some p; m_code := None; m_taken_at := None;
     m_media_type := None; m_product_type := None; m_like_count := None;
     m_comment_count := None; m_view_count := None; m_play_count := None;
     m_caption_text := None; m_video_duration := None;
     m_thumbnail_width := None; m_width := None; m_thumbnail_height := None;
     m_height := None; m_location := None; m_is_paid_partnership := None;
     m_commenting_disabled_for_viewer := None; m_thumbnail_url := None;
     m_video_url := None; m_resources := None |}.

(** A post object that exposes at most its two view counters. *)
Definition with_counters (views plays : option value) : Media :=
  {| m_id := None; m_pk := None; m_code := None; m_taken_at := None;
     m_media_type := None; m_product_type := None; m_like_count := None;
     m_comment_count := None; m_view_count := views; m_play_count := plays;
     m_caption_text := None; m_video_duration := None;
     m_thumbnail_width := None; m_width := None; m_thumbnail_height := None;
     m_height := None; m_location := None; m_is_paid_partnership := None;
     m_commenting_disabled_for_viewer := None; m_thumbnail_url := None;
     m_video_url := None; m_resources := None |}.

(** A post object that exposes at most [resources]. *)
Definition with_resources (resources : option value) : Media :=
  {| m_id := None; m_pk := None; m_code := None; m_taken_at := None;
     m_media_type := None; m_product_type := None; m_like_count := None;
     m_comment_count := None; m_view_count := None; m_play_count := None;
     m_caption_text := None; m_video_duration := None;
     m_thumbnail_width := None; m_width := None; m_thumbnail_height := None;
     m_height := None; m_location := None; m_is_paid_partnership := None;
     m_commenting_disabled_for_viewer := None; m_thumbnail_url := None;
     m_video_url := None; m_resources := resources |}.

(** A post object that exposes its three counters only. *)
Definition post (likes comments views : Z) : Media :=
  {| m_id := None; m_pk := None; m_code := None; m_taken_at := None;
     m_media_type := None; m_product_type := None;
     m_like_count := Some (VInt likes);
     m_comment_count := Some (VInt comments);
     m_view_count := Some (VInt views); m_play_count := None;
     m_caption_text := None; m_video_duration := None;
     m_thumbnail_width := None; m_width := None; m_thumbnail_height := None;
     m_height := None; m_location := None; m_is_paid_partnership := None;
     m_commenting_disabled_for_viewer := None; m_thumbnail_url := None;
     m_video_url := None; m_resources := None |}.

(* ================================================================= *)
(** ** Tables

    A [pandas.DataFrame]: the row labels and, per column, the cells in row
    order. *)

Record DataFrame : Type := {
  index : list nat;
  columns : list (string * list value)
}.

Definition nrows (df : DataFrame) : nat := List.length (index df).

(** [name in df.columns]. *)
Definition has_column (name : string) (df : DataFrame) : bool :=
  existsb (String.eqb name) (map fst (columns df)).

(** [df.get(name)]. *)
Definition df_get (name : string) (df : DataFrame) : option (list value) :=
  lookup name (columns df).

(** [df[name] = cells]. *)
Definition setitem (name : string) (cells : list value) (df : DataFrame)
  : DataFrame :=
  {| index := index df; columns := assoc_set name cells (columns df) |}.

(** [df[name] = v] for a scalar [v]: the same cell in every row. *)
Definition setitem_scalar (name : string) (v : value) (df : DataFrame)
  : DataFrame :=
  setitem name (repeat v (nrows df)) df.

(** Keys in the order they are first seen. *)
Fixpoint first_seen (seen l : list string) : list string :=
  match l with
  | [] => []
  | k :: l' =>
      if existsb (String.eqb k) seen then first_seen seen l'
      else k :: first_seen (k :: seen) l'
  end.

Definition is_bool (v : value) : bool :=
  match v with
  | VBool _ => true
  | _ => false
  end.

Definition is_int64 (v : value) : bool :=
  match v with
  | VInt n => in_int64 n
  | _ => false
  end.

Definition is_float (v : value) : bool :=
  match v with
  | VFloat _ => true
  | _ => false
  end.

Definition is_none (v : value) : bool :=
  match v with
  | VNone => true
  | _ => false
  end.

(** The dtype of a column. *)
Inductive dtype : Type := Dbool | Dint64 | Dfloat64 | Dobject.

(** The dtype [pd.DataFrame] infers for a column of Python values:
    booleans only give bool; int64 integers only give int64; integers,
    floats and [None], with a number among them, give float64; anything
    else (text, lists, objects, [None] alone, booleans mixed with anything)
    gives object, as in pandas 1 and 2.  An integer beyond int64 makes the
    column object here; pandas has further cases for those (uint64, float64
    after a [None]), which are not modelled.  An object that exposes
    [isoformat] counts as any other object; the program turns [taken_at]
    into text before the table is built. *)
Definition infer_dtype (cells : list value) : dtype :=
  match cells with
  | [] => Dobject
  | _ :: _ =>
      if forallb is_bool cells then Dbool
      else if forallb is_int64 cells then Dint64
      else if forallb (fun v => is_int64 v || is_float v || is_none v) cells
              && existsb (fun v => is_int64 v || is_float v) cells
      then Dfloat64
      else Dobject
  end.

(** A cell of a column that becomes float64: an integer becomes the
    nearest double, [None] becomes not-a-number. *)
Definition astype_float (v : value) : value :=
  match v with
  | VInt n => VFloat (float_of_Z n)
  | VNone => VFloat NaN
  | _ => v
  end.

(** A cell as it is stored in a column of the given cells. *)
Definition stored (cells : list value) (v : value) : value :=
  match infer_dtype cells with
  | Dfloat64 => astype_float v
  | _ => v
  end.

(** The cells of a column as [pd.DataFrame] stores them. *)
Definition infer_objects (cells : list value) : list value :=
  match infer_dtype cells with
  | Dfloat64 => map astype_float cells
  | _ => cells
  end.

(** [pd.DataFrame(rows)] for a list of dicts: one row per dict, labelled
    0, 1, ...; one column per key, of the dtype inferred from its cells;
    not-a-number where a dict lacks a key. *)
Definition DataFrame_of_rows (rows : list dict) : DataFrame :=
  {| index := seq 0 (List.length rows);
     columns :=
       map (fun k =>
              (k, infer_objects
                    (map (fun r => match lookup k r with
                                   | Some v => v
                                   | None => VFloat NaN
                                   end) rows)))
           (first_seen [] (List.concat (map (map fst) rows))) |}.

(** A number of a numeric column: a bool, an int64 or a float64. *)
Inductive scalar : Type :=
| SBool (b : bool)
| SInt (n : Z)
| SFloat (x : num).

(** The dtype of a numeric column. *)
Inductive ntype : Type := Nbool | Nint64 | Nfloat64.

Definition type_of (s : scalar) : ntype :=
  match s with
  | SBool _ => Nbool
  | SInt _ => Nint64
  | SFloat _ => Nfloat64
  end.

Definition is_sint (s : scalar) : bool :=
  match s with
  | SInt _ => true
  | _ => false
  end.

Definition is_sfloat (s : scalar) : bool :=
  match s with
  | SFloat _ => true
  | _ => false
  end.

(** A number cast to bool, to int64 and to float64. *)
Definition scalar_bool (s : scalar) : bool :=
  match s with
  | SBool b => b
  | SInt n => negb (n =? 0)%Z
  | SFloat x => negb (PrimFloat.eqb x PrimFloat.zero)
  end.

Definition scalar_int (s : scalar) : Z :=
  match s with
  | SBool b => Z.b2z b
  | SInt n => n
  | SFloat _ => 0%Z
  end.

Definition scalar_float (s : scalar) : num :=
  match s with
  | SBool b => float_of_Z (Z.b2z b)
  | SInt n => float_of_Z n
  | SFloat x => x
  end.

Definition cast (d : ntype) (s : scalar) : scalar :=
  match d with
  | Nbool => SBool (scalar_bool s)
  | Nint64 => SInt (scalar_int s)
  | Nfloat64 => SFloat (scalar_float s)
  end.

(** The dtype of the sum of two numeric columns. *)
Definition promote (d d' : ntype) : ntype :=
  match d, d' with
  | Nfloat64, _ | _, Nfloat64 => Nfloat64
  | Nint64, _ | _, Nint64 => Nint64
  | Nbool, Nbool => Nbool
  end.

(** [x + y] in a dtype: logical or on bool, addition that wraps around on
    int64, IEEE addition on float64. *)
Definition add_as (d : ntype) (x y : scalar) : scalar :=
  match d with
  | Nbool => SBool (scalar_bool x || scalar_bool y)
  | Nint64 => SInt (wrap64 (scalar_int x + scalar_int y))
  | Nfloat64 => SFloat (num_add (scalar_float x) (scalar_float y))
  end.

(** The sum of two numbers as NumPy takes it. *)
Definition scalar_add (x y : scalar) : scalar :=
  add_as (promote (type_of x) (type_of y)) x y.

(** A number over the follower count: both become float64, then one IEEE
    division. *)
Definition scalar_div (x : scalar) (followers : Z) : num :=
  num_div (scalar_float x) (float_of_Z followers).

(** The cell that holds a number. *)
Definition scalar_value (s : scalar) : value :=
  match s with
  | SBool b => VBool b
  | SInt n => VInt n
  | SFloat x => VFloat x
  end.

(** The operand of a column expression: a float64 scalar, or a numeric
    column with its dtype. *)
Inductive numeric : Type :=
| Scalar (x : num)
| Series (d : ntype) (xs : list scalar).

Fixpoint map2 {A B C : Type} (f : A -> B -> C) (l : list A) (l' : list B)
  : list C :=
  match l, l' with
  | a :: l, b :: l' => f a b :: map2 f l l'
  | _, _ => []
  end.

(** [a + b]: a float64 scalar makes the sum float64; two columns add in
    the dtype they promote to. *)
Definition numeric_add (a b : numeric) : numeric :=
  match a, b with
  | Scalar x, Scalar y => Scalar (num_add x y)
  | Scalar x, Series _ ys =>
      Series Nfloat64 (map (fun y => SFloat (num_add x (scalar_float y))) ys)
  | Series _ xs, Scalar y =>
      Series Nfloat64 (map (fun x => SFloat (num_add (scalar_float x) y)) xs)
  | Series d xs, Series d' ys =>
      Series (promote d d') (map2 (add_as (promote d d')) xs ys)
  end.

(** [a / followers], a true division: always float64. *)
Definition numeric_div (a : numeric) (followers : Z) : numeric :=
  match a with
  | Scalar x => Scalar (num_div x (float_of_Z followers))
  | Series _ xs =>
      Series Nfloat64 (map (fun x => SFloat (scalar_div x followers)) xs)
  end.

(** [df[name] = a]. *)
Definition setitem_numeric (name : string) (a : numeric) (df : DataFrame)
  : DataFrame :=
  match a with
  | Scalar x => setitem_scalar name (VFloat x) df
  | Series _ xs => setitem name (map scalar_value xs) df
  end.

Definition cell_num (v : value) : num :=
  match v with
  | VFloat x => x
  | _ => NaN
  end.

(** [x] goes strictly before [y] in a column sorted ascending or
    descending; not-a-number goes last either way. *)
Definition num_before (ascending : bool) (x y : num) : bool :=
  if PrimFloat.is_nan x then false
  else if PrimFloat.is_nan y then true
  else if ascending then PrimFloat.ltb x y else PrimFloat.ltb y x.

(** Two keys tie: equal floats (the two zeros are equal), or not-a-number
    both. *)
Definition num_tie (x y : num) : bool :=
  if PrimFloat.is_nan x then PrimFloat.is_nan y else PrimFloat.eqb x y.

(** The order of float64 through integers: a float that is not
    not-a-number has a rank, a triple read in lexicographic order (the
    sign class; then exponent and mantissa, negated for a negative float);
    the two zeros have one rank. *)
Definition rank (x : spec_float) : option (Z * Z * Z) :=
  match x with
  | S754_nan => None
  | S754_infinity s => Some (if s then (-2)%Z else 2%Z, 0%Z, 0%Z)
  | S754_zero _ => Some (0%Z, 0%Z, 0%Z)
  | S754_finite s m e =>
      Some (if s then ((-1)%Z, (- e)%Z, Z.neg m) else (1%Z, e, Z.pos m))
  end.

Definition lt3 (a b : Z * Z * Z) : Prop :=
  let '(a1, a2, a3) := a in
  let '(b1, b2, b3) := b in
  (a1 < b1 \/ (a1 = b1 /\ (a2 < b2 \/ (a2 = b2 /\ a3 < b3))))%Z.

Definition fkey (x : num) : option (Z * Z * Z) := rank (Prim2SF x).

(** [a] sorts strictly before [b], on ranks; no rank sorts last. *)
Definition key_lt (asc : bool) (a b : option (Z * Z * Z)) : Prop :=
  match a, b with
  | Some a, Some b => if asc then lt3 a b else lt3 b a
  | Some _, None => True
  | None, _ => False
  end.

(** The key a column gives row [i]. *)
Definition key_at (col : list value) (i : nat) : num :=
  cell_num (nth i col (VFloat NaN)).

(** Row [i] goes strictly before row [j]: the key columns are compared in
    turn, the first one first. *)
Fixpoint row_before (ascending : list bool) (keys : list (list value))
         (i j : nat) : bool :=
  match ascending, keys with
  | a :: ascending', col :: keys' =>
      num_before a (key_at col i) (key_at col j)
      || (num_tie (key_at col i) (key_at col j)
          && row_before ascending' keys' i j)
  | _, _ => false
  end.

(** A stable sort of row positions: [i] is put in front of the first
    position that does not go strictly before it. *)
Fixpoint insert_row (before : nat -> nat -> bool) (i : nat) (l : list nat)
  : list nat :=
  match l with
  | [] => [i]
  | j :: l' => if before j i then j :: insert_row before i l' else i :: l
  end.

Definition lexsort_indexer (keys : list (list value)) (ascending : list bool)
           (n : nat) : list nat :=
  fold_right (insert_row (row_before ascending keys)) [] (seq 0 n).

(** [l.take(indexer)]. *)
Definition take {A : Type} (d : A) (indexer : list nat) (l : list A)
  : list A :=
  map (fun i => nth i l d) indexer.

Definition take_rows (indexer : list nat) (df : DataFrame) : DataFrame :=
  {| index := take O indexer (index df);
     columns := map (fun kc => (fst kc, take VNone indexer (snd kc)))
                    (columns df) |}.

(** The columns named in [sort_by], when the table has them all. *)
Fixpoint key_columns (df : DataFrame) (sort_by : list string)
  : option (list (list value)) :=
  match sort_by with
  | [] => Some []
  | name :: sort_by' =>
      match df_get name df, key_columns df sort_by' with
      | Some c, Some cs => Some (c :: cs)
      | _, _ => None
      end
  end.

(** The cell of column [name] in row [i]. *)
Definition cell (df : DataFrame) (name : string) (i : nat) : option value :=
  match df_get name df with
  | Some c => nth_error c i
  | None => None
  end.

(** Every column has one cell per row. *)
Definition rectangular (df : DataFrame) : Prop :=
  Forall (fun kc => List.length (snd kc) = nrows df) (columns df).

(** The float in column [name] of row [i]. *)
Definition metric (df : DataFrame) (name : string) (i : nat) : num :=
  match cell df name i with
  | Some (VFloat x) => x
  | _ => NaN
  end.

(** [x] is ranked above [y] in a descending column: a larger number, or a
    number against not-a-number. *)
Definition higher (x y : num) : Prop :=
  PrimFloat.is_nan x = false /\
  (PrimFloat.is_nan y = true \/ PrimFloat.ltb y x = true).

Definition same (x y : num) : Prop :=
  (PrimFloat.is_nan x = true /\ PrimFloat.is_nan y = true) \/
  PrimFloat.eqb x y = true.

(** Row [i] comes before row [j] in the ranking: a higher
    [views_per_follower]; on a tie there, a higher [er_per_follower]; on a
    tie there too, the earlier row. *)
Definition ranked_before (df : DataFrame) (i j : nat) : Prop :=
  let v := metric df "views_per_follower" in
  let e := metric df "er_per_follower" in
  higher (v i) (v j) \/
  (same (v i) (v j) /\
   (higher (e i) (e j) \/ (same (e i) (e j) /\ (i < j)%nat))).

(** The sample of the specification: three rows and their two ratios. *)
Definition three_rows : DataFrame :=
  {| index := [0; 1; 2]%nat;
     columns :=
       [ ("id", [VStr "row1"; VStr "row2"; VStr "row3"]);
         ("views_per_follower",
          [VFloat 0.2%float; VFloat 0.5%float; VFloat 0.5%float]);
         ("er_per_follower",
          [VFloat 0.1%float; VFloat 0.2%float; VFloat 0.1%float]) ] |}.

(** Row [i] outranks row [j]: a higher [views_per_follower], or the same
    and a higher [er_per_follower]. *)
Definition outranks (df : DataFrame) (i j : nat) : Prop :=
  let v := metric df "views_per_follower" in
  let e := metric df "er_per_follower" in
  higher (v i) (v j) \/ (same (v i) (v j) /\ higher (e i) (e j)).


(** The follower count is null, zero or negative. *)
Definition no_follower_data (followers : option Z) : Prop :=
  match followers with
  | None => True
  | Some f => (f <= 0)%Z
  end.

(** The value a column expression has in row [i]. *)
Definition numeric_at (a : numeric) (i : nat) : option scalar :=
  match a with
  | Scalar x => Some (SFloat x)
  | Series _ xs => nth_error xs i
  end.

(** Every number of a column has the dtype of the column. *)
Definition well_typed (a : numeric) : Prop :=
  match a with
  | Scalar _ => True
  | Series d xs => Forall (fun s => type_of s = d) xs
  end.

(** [i] goes first: it sorts strictly before [j], or neither sorts before
    the other and [i] is the earlier position. *)
Definition goes_first (before : nat -> nat -> bool) (i j : nat) : Prop :=
  before i j = true \/ (before j i = false /\ (i < j)%nat).

(** The specification's table of five rows: five posts that expose
    nothing. *)
Definition five_rows : DataFrame :=
  DataFrame_of_rows (map media_to_row [bare; bare; bare; bare; bare]).


(** What pandas reads in a text cell: an integer, or a float
    (not-a-number when the text is no number). *)
Inductive parsed : Type :=
| PInt (n : Z)
| PFloat (x : num).

(** A reading of text cells that takes none for a number, and a
    [sort_values] that raises outside the modelled case: enough to run the
    pipeline on tables without text counters. *)
Definition no_text_number (s : string) : parsed := PFloat NaN.

Definition sort_values_raises (df : DataFrame) (sort_by : list string)
           (ascending : list bool) : option DataFrame := None.

(** The columns [compute_virality] writes. *)
Definition METRIC_COLUMNS : list string :=
  [ "followers_at_scrape"; "views_per_follower"; "likes_per_follower";
    "comments_per_follower"; "er_per_follower" ].

Section Pipeline.

(** How pandas reads a text cell as a number. *)
Variable parse_number : string -> parsed.

(** What [sort_values] does outside the case modelled below ([None]: it
    raises): a single key, where pandas runs an unstable quicksort, and key
    columns that are not float64. *)
Variable sort_values_other :
  DataFrame -> list string -> list bool -> option DataFrame.

(** An integer as [pd.to_numeric] takes it: an int64 when it is one; beyond
    int64 it is taken as a float here (pandas does so below -2^63 and from
    2^64 on; what it does in between, with uint64, is not modelled). *)
Definition coerce_int (n : Z) : scalar :=
  if in_int64 n then SInt n else SFloat (float_of_Z n).

(** [pd.to_numeric(v, errors="coerce")] on one cell: a bool, an integer
    and a float are numbers; text is parsed; [None] and every other object
    fail and give not-a-number. *)
Definition coerce (v : value) : scalar :=
  match v with
  | VBool b => SBool b
  | VInt n => coerce_int n
  | VFloat x => SFloat x
  | VStr s =>
      match parse_number s with
      | PInt n => coerce_int n
      | PFloat x => SFloat x
      end
  | _ => SFloat NaN
  end.

(** The dtype of the coerced column: float64 when a float or a failure is
    seen, else int64 when an integer is seen, else bool (int64 for a column
    without cells). *)
Definition series_dtype (xs : list scalar) : ntype :=
  if existsb is_sfloat xs then Nfloat64
  else if existsb is_sint xs then Nint64
  else match xs with
       | [] => Nint64
       | _ :: _ => Nbool
       end.

(** [pd.to_numeric(df.get(name), errors="coerce")]: a column is coerced
    cell by cell and every number cast to the dtype of the column; without
    the column [df.get] gives [None], which coerces to the scalar
    not-a-number.  The columns meant are those of dtype bool, int64,
    float64 and object, which is what [pd.DataFrame] makes of rows of
    Python values. *)
Definition to_numeric (c : option (list value)) : numeric :=
  match c with
  | Some cells =>
      let xs := map coerce cells in
      Series (series_dtype xs) (map (cast (series_dtype xs)) xs)
  | None => Scalar NaN
  end.

(** The coerced counter [name] of row [i], in the dtype of its coerced
    column: not-a-number when the table has no such column. *)
Definition counter (df : DataFrame) (name : string) (i : nat) : scalar :=
  match numeric_at (to_numeric (df_get name df)) i with
  | Some x => x
  | None => SFloat NaN
  end.

(** The three counter columns the calculator reads. *)
Definition COUNTER_COLUMNS : list string :=
  [ "view_count"; "like_count"; "comment_count" ].

(** A cell whose integer, when it is one or is text that reads as one, is
    an int64. *)
Definition int64_cell (v : value) : bool :=
  match v with
  | VInt n => in_int64 n
  | VStr s =>
      match parse_number s with
      | PInt n => in_int64 n
      | PFloat _ => true
      end
  | _ => true
  end.


(** [not followers or followers <= 0]. *)
Definition no_followers (followers : option Z) : bool :=
  match followers with
  | None => true
  | Some f => (f =? 0)%Z || (f <=? 0)%Z
  end.

(** The count itself, once it is known not to be [None]. *)
Definition int_of (followers : option Z) : Z :=
  match followers with
  | Some f => f
  | None => 0
  end.

(** [followers] is an integer or [None].  The function works on
    [df.copy()]: the table it is given is left as it was, which a function
    on values does by itself. *)
Definition compute_virality (df : DataFrame) (followers : option Z)
  : DataFrame :=
  if no_followers followers then
    let df := setitem_scalar "followers_at_scrape" (VFloat NaN) df in
    let df := setitem_scalar "views_per_follower" (VFloat NaN) df in
    let df := setitem_scalar "likes_per_follower" (VFloat NaN) df in
    let df := setitem_scalar "comments_per_follower" (VFloat NaN) df in
    let df := setitem_scalar "er_per_follower" (VFloat NaN) df in
    df
  else
    let f := int_of followers in
    let df := setitem_scalar "followers_at_scrape" (VInt f) df in
    let vc := to_numeric (df_get "view_count" df) in
    let lc := to_numeric (df_get "like_count" df) in
    let cc := to_numeric (df_get "comment_count" df) in
    let df := setitem_numeric "views_per_follower" (numeric_div vc f) df in
    let df := setitem_numeric "likes_per_follower" (numeric_div lc f) df in
    let df := setitem_numeric "comments_per_follower" (numeric_div cc f) df in
    let df := setitem_numeric "er_per_follower"
                              (numeric_div (numeric_add lc cc) f) df in
    df.

(** [df.sort_values(by=sort_by, ascending=ascending)] with two keys or
    more, all float64 columns: a stable lexicographic sort of the rows,
    not-a-number last in every key.  A missing key column raises. *)
Definition sort_values (df : DataFrame) (sort_by : list string)
           (ascending : list bool) : option DataFrame :=
  match key_columns df sort_by with
  | Some keys =>
      if (2 <=? List.length sort_by)%nat
         && (List.length ascending =? List.length sort_by)%nat
         && forallb (forallb is_float) keys
      then Some (take_rows (lexsort_indexer keys ascending (nrows df)) df)
      else sort_values_other df sort_by ascending
  | None => None
  end.

(** The ranked view built in [_run_parser_thread]: [sort_cols] lists the
    ranking columns the table has; with none of them, or when
    [sort_values] raises, the ranked view is the table. *)
Definition df_sorted (df : DataFrame) : DataFrame :=
  let sort_cols :=
    ((if has_column "views_per_follower" df
      then [("views_per_follower", false)] else [])
     ++ (if has_column "er_per_follower" df
         then [("er_per_follower", false)] else []))%list in
  match sort_cols with
  | [] => df
  | _ =>
      let sort_by := map fst sort_cols in
      let ascending := map snd sort_cols in
      match sort_values df sort_by ascending with
      | Some sorted_df => sorted_df
      | None => df
      end
  end.

(** [rows = [media_to_row(m) for m in medias]] up to the two views. *)
Definition run_pipeline (medias : list Media) (followers : option Z)
  : DataFrame * DataFrame :=
  let rows := map media_to_row medias in
  let df := DataFrame_of_rows rows in
  let df := compute_virality df followers in
  (df, df_sorted df).

End Pipeline.

(* ================================================================= *)
(** ** Definitions for the further properties *)

(** The profile URL of a handle, with or without the scheme, [www.] and
    the closing slash. *)
Definition url_of (scheme www h slash : string) : string :=
  scheme ++ www ++ "instagram.com/" ++ h ++ slash.

(** [run_parser] up to the first step of the worker it starts: the field
    is stripped; when nothing is left an error box is shown and nothing
    runs ([None]); otherwise the worker parses the stripped field. *)
Definition target_username (field : string) : option string :=
  let user_input := strip field in
  if (user_input =? "")%string then None
  else Some (parse_username user_input).

(** A tag: not empty and of the set. *)
Definition tag_of (cls : ascii -> bool) (x : string) : Prop :=
  x <> "" /\ all_in cls x = true.

(** The cells a column expression puts in a table of [n] rows. *)
Definition cells_of (a : numeric) (n : nat) : list value :=
  match a with
  | Scalar x => repeat (VFloat x) n
  | Series _ xs => map scalar_value xs
  end.

(** A column expression fits a table of [n] rows. *)
Definition fits (a : numeric) (n : nat) : Prop :=
  match a with
  | Scalar _ => True
  | Series _ xs => List.length xs = n
  end.

(** Five assignments in a row, as both branches make them. *)
Definition with_metrics (c1 c2 c3 c4 c5 : list value) (df : DataFrame)
  : DataFrame :=
  setitem "er_per_follower" c5
    (setitem "comments_per_follower" c4
       (setitem "likes_per_follower" c3
          (setitem "views_per_follower" c2
             (setitem "followers_at_scrape" c1 df)))).

(** The five columns the calculator writes, from the number of rows, the
    three counter columns and the follower count. *)
Definition metric_cells (parse_number : string -> parsed) (n : nat) (v l c : option (list value))
           (followers : option Z)
  : list value * list value * list value * list value * list value :=
  if no_followers followers then
    let r := repeat (VFloat NaN) n in (r, r, r, r, r)
  else
    let f := int_of followers in
    let vc := to_numeric parse_number v in
    let lc := to_numeric parse_number l in
    let cc := to_numeric parse_number c in
    (repeat (VInt f) n,
     cells_of (numeric_div vc f) n,
     cells_of (numeric_div lc f) n,
     cells_of (numeric_div cc f) n,
     cells_of (numeric_div (numeric_add lc cc) f) n).

(** What the rows of the posts hold under a key, post by post. *)
Definition column_of (k : string) (medias : list Media) : list value :=
  map (fun m => match lookup k (media_to_row m) with
                | Some v => v
                | None => VFloat NaN
                end) medias.

(** Three posts that the ranking reorders. *)
Definition three_posts : list Media :=
  [post 1 1 20; post 2 3 50; post 1 1 50].

(* ================================================================= *)
(** ** Output paths

    The last component of a [pathlib] path (its [name]) is a [string]
    without a separator; the directory part of the output path is the same
    for the three files and is left out.  [suffix], [stem], [with_suffix]
    and [with_name] are those of Python 3.9 to 3.13. *)

(** [c in s]. *)
Fixpoint has_char (c : ascii) (s : string) : bool :=
  match s with
  | String a s' => Ascii.eqb a c || has_char c s'
  | EmptyString => false
  end.

(** [s.rfind(c)]: the position of the last [c]; [None] for Python's -1. *)
Fixpoint rfind (c : ascii) (s : string) : option nat :=
  match s with
  | String a s' =>
      match rfind c s' with
      | Some i => Some (S i)
      | None => if Ascii.eqb a c then Some O else None
      end
  | EmptyString => None
  end.

(** [name.rfind('.')] when [0 < i < len(name) - 1]: the dot that starts
    the suffix. *)
Definition suffix_dot (name : string) : option nat :=
  match rfind "." name with
  | Some i =>
      if (0 <? i)%nat && (i <? String.length name - 1)%nat then Some i
      else None
  | None => None
  end.

(** [PurePath.suffix]. *)
Definition path_suffix (name : string) : string :=
  match suffix_dot name with
  | Some i => substring i (String.length name - i) name
  | None => ""
  end.

(** [PurePath.stem]. *)
Definition path_stem (name : string) : string :=
  match suffix_dot name with
  | Some i => substring 0 i name
  | None => name
  end.

(** [PurePath.with_suffix(suffix)] on the name; [None]: it raises
    [ValueError], for a suffix with a separator, one that does not start
    with a dot, the lone dot, and for a path without a name. *)
Definition with_suffix (suffix name : string) : option string :=
  if has_char "/" suffix then None
  else if (negb (suffix =? "") && negb (prefix "." suffix)) || (suffix =? ".")
  then None
  else if name =? "" then None
  else
    let old_suffix := path_suffix name in
    if old_suffix =? "" then Some (name ++ suffix)
    else Some (substring 0 (String.length name - String.length old_suffix) name
               ++ suffix).

(** [PurePath.with_name(new)] on the name; [None]: it raises [ValueError],
    for a path without a name and for a new name that is empty, the lone
    dot or holds a separator (before Python 3.12 some names with a
    separator inside got through; the caller below builds none). *)
Definition with_name (new name : string) : option string :=
  if name =? "" then None
  else if (new =? "") || has_char "/" new || (new =? ".") then None
  else Some new.

(** The three files of [_run_parser_thread], from the name of
    [out_base]. *)
Definition csv_path (name : string) : option string :=
  with_suffix ".csv" name.

Definition xlsx_path (name : string) : option string :=
  with_suffix ".xlsx" name.

Definition vir_csv_path (name : string) : option string :=
  match with_name (path_stem name ++ "_virality") name with
  | Some named => with_suffix ".csv" named
  | None => None
  end.

(** A post object that exposes its shortcode only. *)
Definition with_code (code : option string) : Media :=
  {| m_id := None; m_pk := None; m_code := Some code; m_taken_at := None;
     m_media_type := None; m_product_type := None; m_like_count := None;
     m_comment_count := None; m_view_count := None; m_play_count := None;
     m_caption_text := None; m_video_duration := None;
     m_thumbnail_width := None; m_width := None; m_thumbnail_height := None;
     m_height := None; m_location := None; m_is_paid_partnership := None;
     m_commenting_disabled_for_viewer := None; m_thumbnail_url := None;
     m_video_url := None; m_resources := None |}.

(** A post object that exposes its like, comment and play counters, and
    no [view_count]. *)
Definition played (likes comments plays : Z) : Media :=
  {| m_id := None; m_pk := None; m_code := None; m_taken_at := None;
     m_media_type := None; m_product_type := None;
     m_like_count := Some (VInt likes);
     m_comment_count := Some (VInt comments);
     m_view_count := None; m_play_count := Some (VInt plays);
     m_caption_text := None; m_video_duration := None;
     m_thumbnail_width := None; m_width := None; m_thumbnail_height := None;
     m_height := None; m_location := None; m_is_paid_partnership := None;
     m_commenting_disabled_for_viewer := None; m_thumbnail_url := None;
     m_video_url := None; m_resources := None |}.

(* ================================================================= *)
(** * Properties *)

(** ** The model on sample inputs *)

Example parse_username_url :
  parse_username "  https://www.instagram.com/alice/p/XYZ/ " = "alice".
Proof. reflexivity. Qed.

Example parse_username_at : parse_username " @@name" = "name".
Proof. reflexivity. Qed.

Example extract_hashtags_cases :
  extract_hashtags (Some "#Foo #foo #bar, #foo#baz_1 # #") = ["Foo"; "bar"; "baz_1"; "foo"].
Proof. reflexivity. Qed.

Example extract_mentions_cases :
  extract_mentions (Some "hi @a.b @a.b, mail x@y.z @") = ["a.b"; "y.z"].
Proof. reflexivity. Qed.

(** ** Mappings in insertion order *)

Section Assoc.

Context {A : Type}.

Lemma lookup_assoc_set_eq (k : string) (v : A) (d : list (string * A)) :
  lookup k (assoc_set k v d) = Some v.
Proof.
  induction d as [|[k0 v0] d IH]; simpl.
  - now rewrite String.eqb_refl.
  - destruct (k0 =? k)%string eqn:E; simpl.
    + now rewrite String.eqb_refl.
    + now rewrite E.
Qed.

Lemma lookup_assoc_set_neq (k k' : string) (v : A) (d : list (string * A)) :
  k <> k' -> lookup k' (assoc_set k v d) = lookup k' d.
Proof.
  intros Hne. induction d as [|[k0 v0] d IH]; simpl.
  - apply String.eqb_neq in Hne. now rewrite Hne.
  - destruct (k0 =? k)%string eqn:E; simpl.
    + apply String.eqb_eq in E. subst k0.
      apply String.eqb_neq in Hne. now rewrite Hne.
    + destruct (k0 =? k')%string; [reflexivity | exact IH].
Qed.

End Assoc.

Lemma df_get_setitem_eq (name : string) (cells : list value) (df : DataFrame) :
  df_get name (setitem name cells df) = Some cells.
Proof. apply lookup_assoc_set_eq. Qed.

Lemma df_get_setitem_neq (name name' : string) (cells : list value)
      (df : DataFrame) :
  name <> name' -> df_get name' (setitem name cells df) = df_get name' df.
Proof. apply lookup_assoc_set_neq. Qed.

Lemma df_get_setitem_scalar_neq (name name' : string) (v : value)
      (df : DataFrame) :
  name <> name' ->
  df_get name' (setitem_scalar name v df) = df_get name' df.
Proof. apply lookup_assoc_set_neq. Qed.

Lemma nrows_setitem (name : string) (cells : list value) (df : DataFrame) :
  nrows (setitem name cells df) = nrows df.
Proof. reflexivity. Qed.

(** Two column names written out in full are different. *)
Ltac names_differ := apply String.eqb_neq; reflexivity.

(** Read a column back through a chain of assignments. *)
Ltac read_column :=
  unfold setitem_numeric, setitem_scalar;
  repeat first
    [ rewrite df_get_setitem_eq
    | rewrite df_get_setitem_neq by (first [names_differ | assumption])
    | rewrite nrows_setitem ].

(** ** Not-a-number in float64 arithmetic *)






(** ** Virality calculator *)

Section Virality.

Variable parse_number : string -> parsed.

Lemma no_followers_iff (followers : option Z) :
  no_followers followers = true <-> no_follower_data followers.
Proof.
  destruct followers as [f|]; simpl; [|tauto].
  rewrite orb_true_iff, Z.eqb_eq, Z.leb_le. lia.
Qed.

(** C1. Without a usable follower count (null, zero or negative) the
    calculator returns a table with the same rows in which
    [followers_at_scrape] and the four ratio columns hold the not-a-number
    marker in every row; the other columns are as they were.  The
    calculator is a total function: there is no input on which it fails. *)
Theorem compute_virality_without_followers :
  forall (df : DataFrame) (followers : option Z),
    no_follower_data followers ->
    let out := compute_virality parse_number df followers in
    index out = index df /\
    nrows out = nrows df /\
    (forall name, In name METRIC_COLUMNS ->
       df_get name out = Some (repeat (VFloat NaN) (nrows df))) /\
    (forall name i, In name METRIC_COLUMNS -> (i < nrows df)%nat ->
       cell out name i = Some (VFloat NaN)) /\
    (forall name, ~ In name METRIC_COLUMNS ->
       df_get name out = df_get name df).
Proof.
  intros df followers H out.
  assert (E : out = setitem_scalar "er_per_follower" (VFloat NaN)
               (setitem_scalar "comments_per_follower" (VFloat NaN)
               (setitem_scalar "likes_per_follower" (VFloat NaN)
               (setitem_scalar "views_per_follower" (VFloat NaN)
               (setitem_scalar "followers_at_scrape" (VFloat NaN) df))))).
  { subst out. unfold compute_virality.
    apply no_followers_iff in H. now rewrite H. }
  assert (Hcol : forall name, In name METRIC_COLUMNS ->
            df_get name out = Some (repeat (VFloat NaN) (nrows df))).
  { intros name Hin. rewrite E. simpl in Hin.
    decompose [or] Hin; subst; try contradiction; now read_column. }
  repeat split.
  - now rewrite E.
  - now rewrite E.
  - exact Hcol.
  - intros name i Hin Hi. unfold cell. rewrite (Hcol name Hin).
    now apply nth_error_repeat.
  - intros name Hout. rewrite E. simpl in Hout.
    assert ("followers_at_scrape" <> name) by tauto.
    assert ("views_per_follower" <> name) by tauto.
    assert ("likes_per_follower" <> name) by tauto.
    assert ("comments_per_follower" <> name) by tauto.
    assert ("er_per_follower" <> name) by tauto.
    now read_column.
Qed.

Lemma rectangular_column (df : DataFrame) (name : string) (c : list value) :
  rectangular df -> df_get name df = Some c -> List.length c = nrows df.
Proof.
  unfold rectangular, df_get. generalize (nrows df) as n.
  intros n H. induction H as [|[k c0] d Hk _ IH]; simpl; [discriminate|].
  destruct (k =? name)%string; [|exact IH].
  intros E. injection E as <-. exact Hk.
Qed.

Lemma to_numeric_at (df : DataFrame) (name : string) (i : nat) :
  rectangular df -> (i < nrows df)%nat ->
  numeric_at (to_numeric parse_number (df_get name df)) i
  = Some (counter parse_number df name i).
Proof.
  intros Hr Hi. unfold counter.
  destruct (df_get name df) as [c|] eqn:E; simpl; [|reflexivity].
  apply (rectangular_column _ _ _ Hr) in E.
  destruct (nth_error _ i) eqn:En; [reflexivity|].
  apply nth_error_None in En. rewrite !length_map in En. lia.
Qed.

Lemma to_numeric_well_typed (c : option (list value)) :
  well_typed (to_numeric parse_number c).
Proof.
  destruct c as [cells|]; simpl; [|exact I].
  apply Forall_forall. intros s Hs. apply in_map_iff in Hs as (x & <- & _).
  now destruct (series_dtype _).
Qed.

Lemma numeric_div_at (a : numeric) (f : Z) (i : nat) (x : scalar) :
  numeric_at a i = Some x ->
  numeric_at (numeric_div a f) i = Some (SFloat (scalar_div x f)).
Proof.
  destruct a as [y|d xs]; simpl.
  - now intros [= <-].
  - intros E. now rewrite nth_error_map, E.
Qed.

Lemma nth_error_map2 {A B C : Type} (g : A -> B -> C) (l : list A)
      (l' : list B) (i : nat) (a : A) (b : B) :
  nth_error l i = Some a -> nth_error l' i = Some b ->
  nth_error (map2 g l l') i = Some (g a b).
Proof.
  revert l' i. induction l as [|a0 l IH]; intros [|b0 l'] [|i]; simpl;
    try discriminate.
  - now intros [= ->] [= ->].
  - apply IH.
Qed.

Lemma well_typed_at (d : ntype) (xs : list scalar) (i : nat) (x : scalar) :
  well_typed (Series d xs) -> nth_error xs i = Some x -> type_of x = d.
Proof.
  simpl. rewrite Forall_forall. intros H E. eapply H, nth_error_In, E.
Qed.

Lemma numeric_add_at (a b : numeric) (i : nat) (x y : scalar) :
  well_typed a -> well_typed b ->
  numeric_at a i = Some x -> numeric_at b i = Some y ->
  numeric_at (numeric_add a b) i = Some (scalar_add x y).
Proof.
  destruct a as [x0|d xs], b as [y0|d' ys]; simpl; intros Wa Wb.
  - now intros [= <-] [= <-].
  - intros [= <-] E. now rewrite nth_error_map, E.
  - intros E [= <-]. rewrite nth_error_map, E. simpl.
    unfold scalar_add. now destruct (type_of x).
  - intros Ex Ey. rewrite (nth_error_map2 _ _ _ _ _ _ Ex Ey).
    unfold scalar_add.
    now rewrite (well_typed_at d xs i x Wa Ex), (well_typed_at d' ys i y Wb Ey).
Qed.

Lemma cell_setitem_numeric (name : string) (a : numeric) (df : DataFrame)
      (i : nat) (x : scalar) :
  (i < nrows df)%nat -> numeric_at a i = Some x ->
  cell (setitem_numeric name a df) name i = Some (scalar_value x).
Proof.
  intros Hi E. unfold cell. read_column.
  destruct a as [y|d xs]; simpl in *; read_column.
  - injection E as <-. now apply nth_error_repeat.
  - now rewrite nth_error_map, E.
Qed.

Lemma cell_setitem_numeric_other (name name' : string) (a : numeric)
      (df : DataFrame) (i : nat) :
  name <> name' ->
  cell (setitem_numeric name a df) name' i = cell df name' i.
Proof.
  intros Hne. unfold cell. destruct a; now read_column.
Qed.

Lemma nrows_setitem_numeric (name : string) (a : numeric) (df : DataFrame) :
  nrows (setitem_numeric name a df) = nrows df.
Proof. now destruct a. Qed.

Lemma index_setitem_numeric (name : string) (a : numeric) (df : DataFrame) :
  index (setitem_numeric name a df) = index df.
Proof. now destruct a. Qed.

(** What the calculator builds when the follower count is positive. *)
Lemma compute_virality_positive (df : DataFrame) (f : Z) :
  (0 < f)%Z ->
  let vc := to_numeric parse_number (df_get "view_count" df) in
  let lc := to_numeric parse_number (df_get "like_count" df) in
  let cc := to_numeric parse_number (df_get "comment_count" df) in
  compute_virality parse_number df (Some f)
  = setitem_numeric "er_per_follower" (numeric_div (numeric_add lc cc) f)
      (setitem_numeric "comments_per_follower" (numeric_div cc f)
         (setitem_numeric "likes_per_follower" (numeric_div lc f)
            (setitem_numeric "views_per_follower" (numeric_div vc f)
               (setitem_scalar "followers_at_scrape" (VInt f) df)))).
Proof.
  intros Hf. unfold compute_virality.
  assert (N : no_followers (Some f) = false).
  { simpl. apply orb_false_iff. split; [apply Z.eqb_neq | apply Z.leb_gt]; lia. }
  rewrite N. cbv zeta. simpl int_of.
  now rewrite !df_get_setitem_scalar_neq by names_differ.
Qed.

(** The cells of a row, with a positive follower count. *)
Lemma compute_virality_ratios (df : DataFrame) (f : Z) (i : nat) :
  rectangular df -> (0 < f)%Z -> (i < nrows df)%nat ->
  let out := compute_virality parse_number df (Some f) in
  let count name := counter parse_number df name i in
  cell out "followers_at_scrape" i = Some (VInt f) /\
  cell out "views_per_follower" i
  = Some (VFloat (scalar_div (count "view_count") f)) /\
  cell out "likes_per_follower" i
  = Some (VFloat (scalar_div (count "like_count") f)) /\
  cell out "comments_per_follower" i
  = Some (VFloat (scalar_div (count "comment_count") f)) /\
  cell out "er_per_follower" i
  = Some (VFloat (scalar_div (scalar_add (count "like_count")
                                         (count "comment_count")) f)).
Proof.
  intros Hr Hf Hi. cbv zeta.
  pose proof (compute_virality_positive df f Hf) as E.
  cbv zeta in E. rewrite E.
  pose proof (to_numeric_at df "view_count" i Hr Hi) as Hv.
  pose proof (to_numeric_at df "like_count" i Hr Hi) as Hl.
  pose proof (to_numeric_at df "comment_count" i Hr Hi) as Hc.
  repeat split.
  - rewrite !cell_setitem_numeric_other by names_differ.
    unfold cell. read_column. now apply nth_error_repeat.
  - rewrite !cell_setitem_numeric_other by names_differ.
    apply (cell_setitem_numeric _ _ _ _ (SFloat _));
      [exact Hi | now apply numeric_div_at].
  - rewrite !cell_setitem_numeric_other by names_differ.
    apply (cell_setitem_numeric _ _ _ _ (SFloat _));
      [now rewrite ?nrows_setitem_numeric | now apply numeric_div_at].
  - rewrite !cell_setitem_numeric_other by names_differ.
    apply (cell_setitem_numeric _ _ _ _ (SFloat _));
      [now rewrite ?nrows_setitem_numeric | now apply numeric_div_at].
  - apply (cell_setitem_numeric _ _ _ _ (SFloat _));
      [now rewrite ?nrows_setitem_numeric|].
    apply numeric_div_at.
    apply numeric_add_at; auto using to_numeric_well_typed.
Qed.

Lemma cast_series_dtype (xs : list scalar) (s : scalar) :
  In s xs -> scalar_float (cast (series_dtype xs) s) = scalar_float s.
Proof.
  intros Hin. unfold series_dtype.
  destruct (existsb is_sfloat xs) eqn:F; [reflexivity|].
  assert (Nf : forall x, s <> SFloat x).
  { intros x ->. apply not_true_iff_false in F. apply F.
    apply existsb_exists. now exists (SFloat x). }
  destruct (existsb is_sint xs) eqn:G.
  - destruct s as [b|n|x]; [reflexivity | reflexivity | now elim (Nf x)].
  - assert (Ni : forall n, s <> SInt n).
    { intros n ->. apply not_true_iff_false in G. apply G.
      apply existsb_exists. now exists (SInt n). }
    destruct xs as [|x0 xs]; [contradiction|].
    destruct s as [b|n|x];
      [reflexivity | now elim (Ni n) | now elim (Nf x)].
Qed.

Lemma counter_of_cell (df : DataFrame) (name : string) (i : nat) (v : value) :
  cell df name i = Some v ->
  scalar_float (counter parse_number df name i)
  = scalar_float (coerce parse_number v) /\
  (coerce parse_number v = SFloat NaN ->
   counter parse_number df name i = SFloat NaN).
Proof.
  unfold cell, counter. destruct (df_get name df) as [c|]; [|discriminate].
  intros E. cbn [to_numeric numeric_at].
  rewrite nth_error_map, nth_error_map, E. cbn [option_map].
  assert (Hin : In (coerce parse_number v) (map (coerce parse_number) c)).
  { apply in_map. eapply nth_error_In, E. }
  split; [now apply cast_series_dtype|].
  intros N. rewrite N in *. unfold series_dtype.
  assert (F : existsb is_sfloat (map (coerce parse_number) c) = true).
  { apply existsb_exists. now exists (SFloat NaN). }
  now rewrite F.
Qed.

Lemma counter_of_ints (df : DataFrame) (name : string) (cells : list value)
      (i : nat) (n : Z) :
  df_get name df = Some cells ->
  (forall v, In v cells -> exists k, v = VInt k /\ in_int64 k = true) ->
  nth_error cells i = Some (VInt n) ->
  counter parse_number df name i = SInt n.
Proof.
  intros E Hall Hi. unfold counter. rewrite E. cbn [to_numeric numeric_at].
  rewrite nth_error_map, nth_error_map, Hi. cbn [option_map].
  destruct (Hall _ (nth_error_In _ _ Hi)) as (k & [= <-] & Hk).
  assert (F : existsb is_sfloat (map (coerce parse_number) cells) = false).
  { apply not_true_iff_false. intros H. apply existsb_exists in H as (s & Hs & F).
    apply in_map_iff in Hs as (v & <- & Hv).
    destruct (Hall v Hv) as (k & -> & Hk'). simpl in F. unfold coerce_int in F.
    now rewrite Hk' in F. }
  assert (G : existsb is_sint (map (coerce parse_number) cells) = true).
  { apply existsb_exists. exists (SInt n). split; [|reflexivity].
    apply in_map_iff. exists (VInt n). split; [|eapply nth_error_In, Hi].
    simpl. unfold coerce_int. now rewrite Hk. }
  unfold series_dtype. rewrite F, G. simpl. unfold coerce_int. now rewrite Hk.
Qed.


End Virality.

(** ** Row normalizer *)

Lemma ROW_KEYS_NoDup : NoDup ROW_KEYS.
Proof.
  replace ROW_KEYS with (nodup string_dec ROW_KEYS) by reflexivity.
  apply NoDup_nodup.
Qed.

(** C4. Whatever attributes a post object exposes, its row has exactly the
    keys of [ROW_KEYS], each once and in that order; a post object that
    exposes only [id] and [pk] gets those two values, the empty string for
    [hashtags] and [mentions], and null everywhere else. *)
Theorem media_to_row_keys :
  (forall m : Media, map fst (media_to_row m) = ROW_KEYS) /\
  NoDup ROW_KEYS /\
  (forall i p : value,
     media_to_row (only_id_pk i p)
     = [ ("id", i); ("pk", p); ("shortcode", VNone); ("url", VNone);
         ("taken_at", VNone); ("media_type", VNone); ("product_type", VNone);
         ("like_count", VNone); ("comment_count", VNone);
         ("view_count", VNone); ("play_count", VNone); ("caption", VNone);
         ("hashtags", VStr ""); ("mentions", VStr "");
         ("duration_sec", VNone); ("width", VNone); ("height", VNone);
         ("location", VNone); ("is_paid_partnership", VNone);
         ("is_comments_disabled", VNone); ("thumbnail_url", VNone);
         ("video_url", VNone); ("carousel_count", VNone) ]).
Proof.
  split; [|split].
  - intro m. unfold media_to_row.
    now destruct (truthy (get (m_resources m))
                  && isinstance_list (get (m_resources m))).
  - exact ROW_KEYS_NoDup.
  - reflexivity.
Qed.

Lemma media_to_row_view_count (m : Media) :
  lookup "view_count" (media_to_row m)
  = Some (py_or (get (m_view_count m)) (get (m_play_count m))).
Proof.
  unfold media_to_row.
  now destruct (truthy (get (m_resources m))
                && isinstance_list (get (m_resources m))).
Qed.

(** C6, as stated, fails: a direct view count of 0 is present and the row
    takes the play count 500 instead. *)
Lemma view_count_zero_falls_back :
  m_view_count (with_counters (Some (VInt 0)) (Some (VInt 500)))
  = Some (VInt 0) /\
  lookup "view_count"
         (media_to_row (with_counters (Some (VInt 0)) (Some (VInt 500))))
  = Some (VInt 500) /\
  VInt 500 <> VInt 0.
Proof. repeat split. discriminate. Qed.

(** C6, amended. The row's [view_count] is the direct view count when the
    post object exposes one that is truthy (not null, not zero, not empty);
    when the direct view count is absent or falsy, zero included, it is the
    play count, and null when that is absent too. *)
Theorem media_to_row_view_count_fallback :
  forall m : Media,
    (forall v, m_view_count m = Some v -> truthy v = true ->
               lookup "view_count" (media_to_row m) = Some v) /\
    (m_view_count m = None ->
     lookup "view_count" (media_to_row m) = Some (get (m_play_count m))) /\
    (forall v, m_view_count m = Some v -> truthy v = false ->
               lookup "view_count" (media_to_row m)
               = Some (get (m_play_count m))) /\
    truthy (VInt 0) = false /\
    (forall n, n <> 0%Z -> truthy (VInt n) = true).
Proof.
  intro m. rewrite media_to_row_view_count. unfold py_or.
  repeat split.
  - intros v E T. rewrite E. simpl. now rewrite T.
  - intros E. now rewrite E.
  - intros v E T. rewrite E. simpl. now rewrite T.
  - intros n Hn. simpl. now apply negb_true_iff, Z.eqb_neq.
Qed.

Lemma media_to_row_carousel_count (m : Media) :
  lookup "carousel_count" (media_to_row m)
  = Some (if truthy (get (m_resources m))
             && isinstance_list (get (m_resources m))
          then VInt (py_len (get (m_resources m)))
          else VNone).
Proof.
  unfold media_to_row.
  now destruct (truthy (get (m_resources m))
                && isinstance_list (get (m_resources m))).
Qed.

(** C7, as stated, fails: an empty [resources] list gives null, not 0. *)
Lemma carousel_count_of_empty_list :
  lookup "carousel_count" (media_to_row (with_resources (Some (VList []))))
  = Some VNone /\
  VNone <> VInt (Z.of_nat (List.length (@nil value))).
Proof. split; [reflexivity | discriminate]. Qed.

(** C7, amended. [carousel_count] is the length of [resources] when that
    is a list with at least one element, and null when [resources] is an
    empty list, is absent, or is not a list. *)
Theorem media_to_row_carousel_count_cases :
  forall m : Media,
    (forall l, m_resources m = Some (VList l) -> l <> [] ->
               lookup "carousel_count" (media_to_row m)
               = Some (VInt (Z.of_nat (List.length l)))) /\
    (m_resources m = Some (VList []) ->
     lookup "carousel_count" (media_to_row m) = Some VNone) /\
    (m_resources m = None ->
     lookup "carousel_count" (media_to_row m) = Some VNone) /\
    (forall v, m_resources m = Some v -> isinstance_list v = false ->
               lookup "carousel_count" (media_to_row m) = Some VNone).
Proof.
  intro m. rewrite media_to_row_carousel_count.
  repeat split.
  - intros l E Hl. rewrite E. simpl. now destruct l.
  - intros E. now rewrite E.
  - intros E. now rewrite E.
  - intros v E Hv. rewrite E. simpl. rewrite Hv. now rewrite andb_false_r.
Qed.

(** ** Text entity extractor on the specification's sample *)

(** C8, as stated, fails: the result is not the two-element sequence. *)
Lemma extract_hashtags_sample_is_not_folded :
  extract_hashtags (Some "#Foo #foo #bar") <> ["bar"; "foo"].
Proof. discriminate. Qed.

(** C8, amended. [extract_hashtags("#Foo #foo #bar")] is the three-element
    sequence [["Foo"; "bar"; "foo"]]: case variants stay distinct and
    capitals sort before small letters. *)
Theorem extract_hashtags_sample :
  extract_hashtags (Some "#Foo #foo #bar") = ["Foo"; "bar"; "foo"].
Proof. reflexivity. Qed.

(* ================================================================= *)
(** ** Text and patterns *)

Lemma append_nil_r (s : string) : s ++ "" = s.
Proof. induction s; simpl; congruence. Qed.

Lemma append_assoc (a b c : string) : (a ++ b) ++ c = a ++ (b ++ c).
Proof. induction a; simpl; congruence. Qed.

Lemma length_append (a b : string) :
  String.length (a ++ b) = (String.length a + String.length b)%nat.
Proof. induction a; simpl; congruence. Qed.

Lemma strip_prefix_spec (p s r : string) :
  strip_prefix p s = Some r <-> s = p ++ r.
Proof.
  revert s. induction p as [|a p IH]; intros s; simpl.
  - split; congruence.
  - destruct s as [|b s]; [split; discriminate|].
    destruct (Ascii.eqb_spec a b) as [->|Hne].
    + rewrite IH. split; congruence.
    + split; [discriminate | congruence].
Qed.

Lemma take_drop_while (cls : ascii -> bool) (s : string) :
  s = take_while cls s ++ drop_while cls s.
Proof.
  induction s as [|c s IH]; simpl; [reflexivity|].
  destruct (cls c); simpl; congruence.
Qed.

Lemma all_in_take_while (cls : ascii -> bool) (s : string) :
  all_in cls (take_while cls s) = true.
Proof.
  induction s as [|c s IH]; simpl; [reflexivity|].
  destruct (cls c) eqn:E; simpl; [now rewrite E|reflexivity].
Qed.

Lemma not_starting_drop_while (cls : ascii -> bool) (s : string) :
  not_starting cls (drop_while cls s) = true.
Proof.
  induction s as [|c s IH]; simpl; [reflexivity|].
  destruct (cls c) eqn:E; simpl; [exact IH | now rewrite E].
Qed.

Lemma take_while_run (cls : ascii -> bool) (run tail : string) :
  all_in cls run = true -> not_starting cls tail = true ->
  take_while cls (run ++ tail) = run /\ drop_while cls (run ++ tail) = tail.
Proof.
  intros Hr Ht. induction run as [|c run IH]; simpl in *.
  - destruct tail as [|c t]; simpl in *; [auto|].
    apply negb_true_iff in Ht. now rewrite Ht.
  - apply andb_true_iff in Hr as [Hc Hr]. rewrite Hc.
    destruct (IH Hr) as [-> ->]. auto.
Qed.

Lemma take_while_nil (cls : ascii -> bool) (s : string) :
  take_while cls s = "" -> drop_while cls s = s.
Proof.
  destruct s as [|c s]; simpl; [reflexivity|].
  now destruct (cls c).
Qed.

Lemma consumed_append (run tail : string) : consumed (run ++ tail) tail = run.
Proof.
  unfold consumed. rewrite length_append.
  replace (String.length run + String.length tail - String.length tail)%nat
    with (String.length run) by lia.
  induction run as [|c run IH]; simpl.
  - now destruct tail.
  - now rewrite IH.
Qed.

Lemma consumed_drop_while (cls : ascii -> bool) (s : string) :
  consumed s (drop_while cls s) = take_while cls s.
Proof.
  pose proof (take_drop_while cls s) as E.
  remember (take_while cls s) as t. remember (drop_while cls s) as d.
  rewrite E. apply consumed_append.
Qed.

(** Greedy repetition before a continuation that cannot fail takes the
    longest run. *)
Lemma plus_greedy_longest (cls : ascii -> bool) (k : string -> option hit)
      (s : string) :
  (forall t, k t <> None) ->
  plus_greedy cls s k
  = match take_while cls s with
    | EmptyString => None
    | String _ _ => k (drop_while cls s)
    end.
Proof.
  intros Hk. induction s as [|c s IH]; simpl; [reflexivity|].
  destruct (cls c); [|reflexivity].
  rewrite IH. destruct (take_while cls s) eqn:E.
  - now rewrite (take_while_nil _ _ E).
  - destruct (k (drop_while cls s)) eqn:Ek; [reflexivity|].
    now elim (Hk _ Ek).
Qed.

Lemma run_opt_lit_final (p s : string) (g : option string) :
  run (Opt (Lit p)) s g final = Some (Hit (strip_opt p s) g).
Proof. unfold strip_opt. simpl. now destruct (strip_prefix p s). Qed.

(** [(cls+)] then [rest], when [rest] cannot fail: group 1 is the longest run. *)
Lemma run_group_plus (cls : ascii -> bool) (r : regex) (s : string) (g : option string) :
  (forall t g', run r t g' final <> None) ->
  run (Cat (Group (Plus cls)) r) s g final
  = match take_while cls s with
    | EmptyString => None
    | String _ _ => run r (drop_while cls s) (Some (take_while cls s)) final
    end.
Proof.
  intros Hr. simpl. rewrite plus_greedy_longest by (intro t; apply Hr).
  now rewrite consumed_drop_while.
Qed.

Lemma run_handle_re (s : string) (g : option string) :
  run handle_re s g final
  = match take_while handle_char s with
    | EmptyString => None
    | String _ _ =>
        Some (Hit (strip_opt "/" (drop_while handle_char s))
                  (Some (take_while handle_char s)))
    end.
Proof.
  unfold handle_re. rewrite run_group_plus.
  - destruct (take_while handle_char s); [reflexivity|].
    apply run_opt_lit_final.
  - intros t g'. now rewrite run_opt_lit_final.
Qed.

Lemma run_host_re (s : string) (g : option string) :
  run host_re s g final
  = match strip_prefix "instagram.com/" s with
    | Some s3 => run handle_re s3 g final
    | None => None
    end.
Proof. reflexivity. Qed.

Lemma run_www_re (s : string) (g : option string) :
  run www_re s g final = run host_re (strip_opt "www." s) g final.
Proof.
  unfold strip_opt.
  change (run www_re s g final)
    with (match (match strip_prefix "www." s with
                 | Some s' => run host_re s' g final
                 | None => None
                 end) with
          | Some h => Some h
          | None => run host_re s g final
          end).
  destruct (strip_prefix "www." s) as [s'|] eqn:E; [|reflexivity].
  destruct (run host_re s' g final) eqn:E2; [reflexivity|].
  apply strip_prefix_spec in E. subst s. reflexivity.
Qed.

Lemma strip_prefix_append (p q s : string) :
  strip_prefix (p ++ q) s
  = match strip_prefix p s with
    | Some r => strip_prefix q r
    | None => None
    end.
Proof.
  revert s. induction p as [|a p IH]; intros s; simpl; [reflexivity|].
  destruct s as [|b s]; [reflexivity|].
  destruct (Ascii.eqb a b); [apply IH | reflexivity].
Qed.

(** [(?:https?://)?] before a continuation that rejects whatever begins
    with [http]: backtracking never finds a second way. *)
Lemma run_scheme (K : string -> option hit) (s : string) :
  (forall t, K ("http" ++ t) = None) ->
  run (Opt (Cat (Lit "http") (Cat (Opt (Lit "s")) (Lit "://")))) s None
      (fun s' _ => K s')
  = K (strip_scheme s).
Proof.
  intros HK. unfold strip_scheme, strip_opt.
  change "https://" with ("http" ++ ("s" ++ "://")).
  change "http://" with ("http" ++ "://").
  rewrite !strip_prefix_append.
  cbn [run].
  destruct (strip_prefix "http" s) as [s1|] eqn:E1; [|reflexivity].
  rewrite strip_prefix_append.
  assert (Ks : K s = None).
  { apply strip_prefix_spec in E1. rewrite E1. apply HK. }
  destruct (strip_prefix "s" s1) as [s2|] eqn:E2.
  - assert (E : strip_prefix "://" s1 = None).
    { apply strip_prefix_spec in E2. now rewrite E2. }
    rewrite E.
    destruct (strip_prefix "://" s2) as [s3|].
    + destruct (K s3); [reflexivity | exact Ks].
    + reflexivity.
  - destruct (strip_prefix "://" s1) as [s3|]; [|reflexivity].
    destruct (K s3); [reflexivity | exact Ks].
Qed.

Lemma re_match_PROFILE_RE (s : string) :
  re_match PROFILE_RE s = profile_direct s.
Proof.
  transitivity (run www_re (strip_scheme s) None final).
  - apply (run_scheme (fun s' => run www_re s' None final)).
    intros t. now rewrite run_www_re.
  - rewrite run_www_re, run_host_re. unfold profile_direct.
    destruct (strip_prefix "instagram.com/" _); [apply run_handle_re | reflexivity].
Qed.

Lemma all_in_append (cls : ascii -> bool) (a b : string) :
  all_in cls (a ++ b) = all_in cls a && all_in cls b.
Proof.
  induction a as [|c a IH]; simpl; [reflexivity|].
  now rewrite IH, andb_assoc.
Qed.

Lemma lstrip_drop_while (cls : ascii -> bool) (s : string) :
  lstrip cls s = drop_while cls s.
Proof. induction s as [|c s IH]; simpl; [|rewrite IH]; reflexivity. Qed.

Lemma rstrip_spec (cls : ascii -> bool) (s : string) :
  exists r, s = rstrip cls s ++ r /\
            all_in cls r = true /\
            not_ending cls (rstrip cls s) = true.
Proof.
  induction s as [|c s (r & E & Hr & He)]; simpl.
  - now exists "".
  - destruct (rstrip cls s) as [|d t] eqn:Es.
    + simpl in E. subst r. destruct (cls c) eqn:Ec.
      * exists (String c s). simpl. now rewrite Ec, Hr.
      * exists s. simpl. now rewrite Ec, Hr.
    + exists r. rewrite E at 1. repeat split; assumption.
Qed.

Lemma rstrip_not_starting (cls : ascii -> bool) (s : string) :
  not_starting cls s = true -> not_starting cls (rstrip cls s) = true.
Proof.
  destruct s as [|c s]; simpl; [reflexivity|]. intros Hc.
  destruct (rstrip cls s); [|exact Hc].
  apply negb_true_iff in Hc. rewrite Hc. simpl. now rewrite Hc.
Qed.

(** [strip] takes whitespace, and nothing else, off both ends. *)
Lemma strip_spec (value : string) :
  exists l r,
    value = l ++ strip value ++ r /\
    all_in isspace l = true /\ all_in isspace r = true /\
    not_starting isspace (strip value) = true /\
    not_ending isspace (strip value) = true.
Proof.
  unfold strip.
  destruct (rstrip_spec isspace (lstrip isspace value)) as (r & E & Hr & He).
  exists (take_while isspace value), r. repeat split.
  - rewrite <- E, lstrip_drop_while. apply take_drop_while.
  - apply all_in_take_while.
  - exact Hr.
  - apply rstrip_not_starting. rewrite lstrip_drop_while.
    apply not_starting_drop_while.
  - exact He.
Qed.

(** ** Identifier parser *)

Lemma strip_prefix_app (p r : string) : strip_prefix p (p ++ r) = Some r.
Proof. now apply strip_prefix_spec. Qed.

(** A text that begins like a profile URL is matched, and group 1 is the
    handle. *)
Lemma profile_direct_complete (s h : string) :
  profile_url s h -> exists r, profile_direct s = Some (Hit r (Some h)).
Proof.
  intros (scheme & www & tail & -> & Hs & Hw & Hh & Hall & Htail).
  destruct (take_while_run handle_char h tail Hall Htail) as [Et Ed].
  assert (Hhost : forall g,
    match strip_prefix "instagram.com/" ("instagram.com/" ++ h ++ tail) with
    | Some s3 =>
        match take_while handle_char s3 with
        | EmptyString => None
        | String _ _ =>
            Some (Hit (strip_opt "/" (drop_while handle_char s3))
                      (Some (take_while handle_char s3)))
        end
    | None => g
    end = Some (Hit (strip_opt "/" tail) (Some h))).
  { intros g. rewrite strip_prefix_app, Et, Ed.
    destruct h; [now elim Hh | reflexivity]. }
  exists (strip_opt "/" tail). unfold profile_direct.
  destruct Hs as [-> | [-> | ->]], Hw as [-> | ->];
    exact (Hhost None).
Qed.

(** Whatever is matched begins like a profile URL. *)
Lemma profile_direct_sound (s : string) (m : hit) :
  profile_direct s = Some m ->
  exists h, group1 m = Some h /\ profile_url s h.
Proof.
  unfold profile_direct.
  destruct (strip_prefix "instagram.com/" _) as [s3|] eqn:E3; [|discriminate].
  destruct (take_while handle_char s3) as [|c t] eqn:Et; [discriminate|].
  intros [= <-]. exists (String c t). split; [reflexivity|].
  apply strip_prefix_spec in E3.
  assert (Hs : exists scheme, s = scheme ++ strip_scheme s /\
            (scheme = "" \/ scheme = "http://" \/ scheme = "https://")).
  { unfold strip_scheme, strip_opt.
    destruct (strip_prefix "https://" s) as [r|] eqn:E.
    - apply strip_prefix_spec in E. exists "https://". auto.
    - destruct (strip_prefix "http://" s) as [r|] eqn:E'.
      + apply strip_prefix_spec in E'. exists "http://". auto.
      + exists "". auto. }
  destruct Hs as (scheme & Es & Hs).
  assert (Hw : exists www, strip_scheme s = www ++ strip_opt "www." (strip_scheme s) /\
            (www = "" \/ www = "www.")).
  { unfold strip_opt.
    destruct (strip_prefix "www." (strip_scheme s)) as [r|] eqn:E.
    - apply strip_prefix_spec in E. exists "www.". auto.
    - exists "". auto. }
  destruct Hw as (www & Ew & Hw).
  exists scheme, www, (drop_while handle_char s3). repeat split.
  - rewrite Es at 1. rewrite Ew at 1. rewrite E3.
    now rewrite <- Et, <- take_drop_while.
  - exact Hs.
  - exact Hw.
  - discriminate.
  - rewrite <- Et. apply all_in_take_while.
  - apply not_starting_drop_while.
Qed.

Lemma parse_username_of_url (value h : string) :
  profile_url (strip value) h -> parse_username value = h.
Proof.
  intros H. unfold parse_username. rewrite re_match_PROFILE_RE.
  now destruct (profile_direct_complete _ _ H) as (r & ->).
Qed.

Lemma parse_username_of_other (value : string) :
  (forall h, ~ profile_url (strip value) h) ->
  parse_username value = lstrip is_at (strip value).
Proof.
  intros H. unfold parse_username. rewrite re_match_PROFILE_RE.
  destruct (profile_direct (strip value)) as [m|] eqn:E; [|reflexivity].
  destruct (profile_direct_sound _ _ E) as (h & _ & Hu). now elim (H h).
Qed.

(** C5, as stated, fails: every leading [@] is removed, not one. *)
Lemma parse_username_strips_every_at :
  parse_username "@@name" = "name" /\ "name" <> "@name".
Proof. split; [reflexivity | discriminate]. Qed.

(** C5, amended. [parse_username] first takes the whitespace off both ends
    of its argument.  If what is left begins like a profile URL, the result
    is exactly the handle; if not, the result is what is left without its
    leading [@] characters, all of them, as it stands and even when it is
    empty.  The function is total. *)
Theorem parse_username_spec :
  forall value : string,
    (exists l r,
        value = l ++ strip value ++ r /\
        all_in isspace l = true /\ all_in isspace r = true /\
        not_starting isspace (strip value) = true /\
        not_ending isspace (strip value) = true) /\
    (forall h, profile_url (strip value) h -> parse_username value = h) /\
    ((forall h, ~ profile_url (strip value) h) ->
     exists ats,
       strip value = ats ++ parse_username value /\
       all_in is_at ats = true /\
       not_starting is_at (parse_username value) = true).
Proof.
  intro value. split; [apply strip_spec|]. split.
  - intro h. apply parse_username_of_url.
  - intro H. rewrite (parse_username_of_other _ H), lstrip_drop_while.
    exists (take_while is_at (strip value)). repeat split.
    + apply take_drop_while.
    + apply all_in_take_while.
    + apply not_starting_drop_while.
Qed.

(** C10. The pattern is tried at the start of the stripped argument only:
    when that begins with an optional [http://] or [https://], an optional
    [www.], [instagram.com/] and a run of handle characters that is not
    empty, the result is that run, carried on as far as handle characters
    go, and whatever follows is ignored. *)
Theorem parse_username_ignores_the_tail :
  forall value scheme www handle tail : string,
    strip value = scheme ++ www ++ "instagram.com/" ++ handle ++ tail ->
    scheme = "" \/ scheme = "http://" \/ scheme = "https://" ->
    www = "" \/ www = "www." ->
    handle <> "" ->
    all_in handle_char handle = true ->
    parse_username value = handle ++ take_while handle_char tail /\
    (not_starting handle_char tail = true -> parse_username value = handle).
Proof.
  intros value scheme www handle tail E Hs Hw Hh Hall.
  assert (G : parse_username value = handle ++ take_while handle_char tail).
  { apply parse_username_of_url.
    exists scheme, www, (drop_while handle_char tail). repeat split.
    - rewrite E, append_assoc. now rewrite <- take_drop_while.
    - exact Hs.
    - exact Hw.
    - destruct handle; [now elim Hh | discriminate].
    - now rewrite all_in_append, Hall, all_in_take_while.
    - apply not_starting_drop_while. }
  split; [exact G|].
  intros Ht. rewrite G.
  destruct tail as [|c t]; simpl in *; [apply append_nil_r|].
  apply negb_true_iff in Ht. rewrite Ht. apply append_nil_r.
Qed.

(** ** Text entity extractor *)

Lemma codepoint_lt_trans (a b c : string) : codepoint_lt a b -> codepoint_lt b c -> codepoint_lt a c.
Proof.
  unfold codepoint_lt, String.ltb. intros Hab Hbc.
  destruct (String.compare a b) eqn:Eab; try discriminate.
  destruct (String.compare b c) eqn:Ebc; try discriminate.
  pose proof (@StrictOrder_Transitive _ _ OrdersEx.String_as_OT.lt_strorder
                a b c Eab Ebc) as H.
  unfold OrdersEx.String_as_OT.lt in H.
  change (String.compare a c = Lt) in H. now rewrite H.
Qed.

Lemma codepoint_lt_irrefl (a : string) : ~ codepoint_lt a a.
Proof.
  unfold codepoint_lt, String.ltb. intros H.
  destruct (String.compare a a) eqn:E; try discriminate.
  exact (@StrictOrder_Irreflexive _ _ OrdersEx.String_as_OT.lt_strorder a E).
Qed.

Lemma leb_codepoint_lt (a b : string) :
  String.leb a b = true -> a <> b -> codepoint_lt a b.
Proof.
  unfold codepoint_lt, String.leb, String.ltb. intros H Hne.
  destruct (String.compare a b) eqn:E; try discriminate; [|reflexivity].
  apply String.compare_eq_iff in E. contradiction.
Qed.

Lemma not_leb_codepoint_lt (a b : string) : String.leb a b = false -> codepoint_lt b a.
Proof.
  unfold codepoint_lt, String.leb, String.ltb. intros H.
  rewrite String.compare_antisym.
  destruct (String.compare a b); try discriminate. reflexivity.
Qed.

Lemma insert_sorted_perm (x : string) (l : list string) :
  Permutation (insert_sorted x l) (x :: l).
Proof.
  induction l as [|y l IH]; simpl; [reflexivity|].
  destruct (String.leb x y); [reflexivity|].
  rewrite IH. apply perm_swap.
Qed.

Lemma insert_sorted_ascending (x : string) (l : list string) :
  ascending l -> ~ In x l -> ascending (insert_sorted x l).
Proof.
  unfold ascending. intros Hl. induction Hl as [|y l Hl IH Hy]; intros Hx.
  - repeat constructor.
  - simpl. destruct (String.leb x y) eqn:E.
    + assert (Hxy : codepoint_lt x y).
      { apply leb_codepoint_lt; [exact E|]. intros ->. apply Hx. now left. }
      constructor; [now constructor|].
      constructor; [exact Hxy|].
      eapply Forall_impl; [|exact Hy]. intros z. now apply codepoint_lt_trans.
    + constructor; [apply IH; intros H; apply Hx; now right|].
      eapply Permutation_Forall; [symmetry; apply insert_sorted_perm|].
      constructor; [now apply not_leb_codepoint_lt | exact Hy].
Qed.

Lemma sorted_perm (l : list string) : Permutation (sorted l) l.
Proof.
  induction l as [|x l IH]; simpl; [reflexivity|].
  now rewrite insert_sorted_perm, IH.
Qed.

Lemma sorted_ascending (l : list string) : NoDup l -> ascending (sorted l).
Proof.
  induction 1 as [|x l Hx Hl IH]; simpl; [constructor|].
  apply insert_sorted_ascending; [exact IH|].
  intros H. apply Hx. eapply Permutation_in; [apply sorted_perm | exact H].
Qed.

Lemma sorted_set_spec (l : list string) :
  ascending (sorted (py_set l)) /\
  forall x, In x (sorted (py_set l)) <-> In x l.
Proof.
  split.
  - apply sorted_ascending, NoDup_nodup.
  - intros x. unfold py_set. rewrite <- (nodup_In string_dec l x).
    split; apply Permutation_in; [|symmetry]; apply sorted_perm.
Qed.

Lemma re_match_tag (mark : ascii) (cls : ascii -> bool) (s : string) :
  re_match (tag_re mark cls) s
  = match s with
    | String c s' =>
        if Ascii.eqb mark c then
          match take_while cls s' with
          | EmptyString => None
          | String _ _ =>
              Some (Hit (drop_while cls s') (Some (take_while cls s')))
          end
        else None
    | EmptyString => None
    end.
Proof.
  unfold re_match, tag_re. cbn [run strip_prefix].
  destruct s as [|c s']; [reflexivity|].
  destruct (Ascii.eqb mark c); [|reflexivity].
  rewrite plus_greedy_longest by discriminate.
  now rewrite consumed_drop_while.
Qed.

Lemma drop_while_before_mark (cls : ascii -> bool) (m : ascii) (a z : string) :
  cls m = false ->
  drop_while cls (a ++ String m z) = drop_while cls a ++ String m z.
Proof.
  intros Hm. induction a as [|c a IH]; simpl.
  - now rewrite Hm.
  - destruct (cls c); [exact IH | reflexivity].
Qed.

Lemma length_drop_while (cls : ascii -> bool) (s : string) :
  (String.length (drop_while cls s) <= String.length s)%nat.
Proof.
  induction s as [|c s IH]; simpl; [lia|].
  destruct (cls c); simpl; lia.
Qed.

Lemma tagged_at_match (mark : ascii) (cls : ascii -> bool) (s' x : string) :
  cls mark = false -> take_while cls s' <> "" ->
  tagged mark cls (String mark s') x
  <-> x = take_while cls s' \/ tagged mark cls (drop_while cls s') x.
Proof.
  intros Hm Hrun. split.
  - intros (pre & post & E & Hx & Hall & Hpost).
    destruct pre as [|c pre]; simpl in E; injection E as E.
    + left. subst s'. now destruct (take_while_run cls x post Hall Hpost).
    + right. intros. subst c s'. exists (drop_while cls pre), post.
      rewrite drop_while_before_mark by exact Hm. auto.
  - intros [-> | (pre & post & E & Hx & Hall & Hpost)].
    + exists "", (drop_while cls s'). simpl. rewrite <- take_drop_while.
      repeat split; [exact Hrun | apply all_in_take_while
                     | apply not_starting_drop_while].
    + exists (String mark (take_while cls s' ++ pre)), post. simpl.
      rewrite append_assoc, <- E, <- take_drop_while. auto.
Qed.

Lemma tagged_after_miss (mark : ascii) (cls : ascii -> bool) (c : ascii)
      (s' x : string) :
  Ascii.eqb mark c = false \/ take_while cls s' = "" ->
  tagged mark cls (String c s') x <-> tagged mark cls s' x.
Proof.
  intros Hmiss. split.
  - intros (pre & post & E & Hx & Hall & Hpost).
    destruct pre as [|c' pre]; simpl in E; injection E as E1 E2.
    + exfalso. subst. destruct Hmiss as [H|H].
      * now rewrite Ascii.eqb_refl in H.
      * destruct (take_while_run cls x post Hall Hpost) as [Et _].
        congruence.
    + subst. now exists pre, post.
  - intros (pre & post & E & H). exists (String c pre), post.
    simpl. now rewrite E.
Qed.

Lemma findall_from_tagged (mark : ascii) (cls : ascii -> bool) (x : string) :
  cls mark = false ->
  forall (fuel : nat) (s : string),
    (String.length s < fuel)%nat ->
    In x (findall_from fuel (tag_re mark cls) s) <-> tagged mark cls s x.
Proof.
  intros Hm. induction fuel as [|fuel IH]; intros s Hs; [lia|].
  cbn [findall_from]. rewrite re_match_tag.
  destruct s as [|c s'].
  - simpl. split; [tauto|].
    intros (pre & post & E & _). now destruct pre.
  - simpl in Hs.
    destruct (Ascii.eqb mark c) eqn:Ec.
    + apply Ascii.eqb_eq in Ec. subst c.
      destruct (take_while cls s') as [|d t] eqn:Et.
      * rewrite IH by lia. symmetry. apply tagged_after_miss. now right.
      * cbn [rest group group1 In].
        rewrite IH by (pose proof (length_drop_while cls s'); lia).
        rewrite tagged_at_match by (exact Hm || congruence).
        rewrite Et. split; intros [H|H]; auto.
    + rewrite IH by lia. symmetry. apply tagged_after_miss. now left.
Qed.

Lemma findall_tagged (mark : ascii) (cls : ascii -> bool) (t x : string) :
  cls mark = false ->
  In x (findall (tag_re mark cls) t) <-> tagged mark cls t x.
Proof.
  intros Hm. unfold findall. apply findall_from_tagged; [exact Hm | lia].
Qed.

Lemma not_tagged_empty (mark : ascii) (cls : ascii -> bool) (x : string) :
  ~ tagged mark cls "" x.
Proof. intros (pre & post & E & _). now destruct pre. Qed.

(** Two strictly ascending lists with the same elements are the same list:
    the order in which [sorted] is handed the set does not matter. *)
Lemma ascending_unique (l1 l2 : list string) :
  ascending l1 -> ascending l2 -> Permutation l1 l2 -> l1 = l2.
Proof.
  unfold ascending. intros H1. revert l2.
  induction H1 as [|a l1 H1 IH Ha]; intros l2 H2 P.
  - apply Permutation_nil in P. now subst.
  - destruct H2 as [|b l2 H2 Hb].
    + symmetry in P. now apply Permutation_nil in P.
    + assert (E : a = b).
      { assert (Ia : In a (b :: l2)) by (eapply Permutation_in; [exact P | now left]).
        assert (Ib : In b (a :: l1)).
        { eapply Permutation_in; [symmetry; exact P | now left]. }
        destruct Ia as [Ia|Ia]; [now subst|].
        destruct Ib as [Ib|Ib]; [now subst|].
        rewrite Forall_forall in Ha, Hb.
        elim (codepoint_lt_irrefl a).
        eapply codepoint_lt_trans; [apply Ha, Ib | apply Hb, Ia]. }
      subst b. f_equal. apply IH; [exact H2|].
      now apply Permutation_cons_inv in P.
Qed.

Lemma sorted_any_order (l l' : list string) :
  NoDup l -> Permutation l l' -> sorted l = sorted l'.
Proof.
  intros Hl P. apply ascending_unique.
  - now apply sorted_ascending.
  - apply sorted_ascending. eapply Permutation_NoDup; eassumption.
  - now rewrite !sorted_perm.
Qed.

Lemma extract_hashtags_In (text : option string) (x : string) :
  In x (extract_hashtags text)
  <-> exists t, text = Some t /\ tagged "#" word_char t x.
Proof.
  destruct text as [[|c t]|]; simpl.
  - split; [tauto|]. intros (t & [= <-] & H). now apply not_tagged_empty in H.
  - rewrite (proj2 (sorted_set_spec _)).
    rewrite (findall_tagged "#" word_char) by reflexivity.
    split; [intros H; eauto | now intros (t' & [= <-] & H)].
  - split; [tauto | now intros (t & E & _)].
Qed.

Lemma extract_mentions_In (text : option string) (x : string) :
  In x (extract_mentions text)
  <-> exists t, text = Some t /\ tagged "@" handle_char t x.
Proof.
  destruct text as [[|c t]|]; simpl.
  - split; [tauto|]. intros (t & [= <-] & H). now apply not_tagged_empty in H.
  - rewrite (proj2 (sorted_set_spec _)).
    rewrite (findall_tagged "@" handle_char) by reflexivity.
    split; [intros H; eauto | now intros (t' & [= <-] & H)].
  - split; [tauto | now intros (t & E & _)].
Qed.

Lemma extract_hashtags_ascending (text : option string) :
  ascending (extract_hashtags text).
Proof.
  destruct text as [[|c t]|]; simpl; try constructor. apply sorted_set_spec.
Qed.

Lemma extract_mentions_ascending (text : option string) :
  ascending (extract_mentions text).
Proof.
  destruct text as [[|c t]|]; simpl; try constructor. apply sorted_set_spec.
Qed.

(** C9. For every text, [extract_hashtags] returns exactly the runs of word
    characters that follow a [#] (each run not empty, taken as far as it
    goes, without the [#]), and [extract_mentions] exactly the runs of
    letters, digits, [_] and [.] that follow an [@]; each result is strictly
    ascending in code point order, hence without duplicates.  For the null
    input and for the empty string both results are empty. *)
Theorem extract_entities_spec :
  forall text : option string,
    (forall x, In x (extract_hashtags text)
               <-> exists t, text = Some t /\ tagged "#" word_char t x) /\
    (forall x, In x (extract_mentions text)
               <-> exists t, text = Some t /\ tagged "@" handle_char t x) /\
    ascending (extract_hashtags text) /\
    ascending (extract_mentions text) /\
    extract_hashtags None = [] /\ extract_mentions None = [] /\
    extract_hashtags (Some "") = [] /\ extract_mentions (Some "") = [].
Proof.
  intros text. repeat split; try reflexivity.
  - apply extract_hashtags_In.
  - apply extract_hashtags_In.
  - apply extract_mentions_In.
  - apply extract_mentions_In.
  - apply extract_hashtags_ascending.
  - apply extract_mentions_ascending.
Qed.

(* ================================================================= *)
(** ** A stable sort of positions *)

Section StableSort.

Variable before : nat -> nat -> bool.

Hypothesis before_trans :
  forall i j k, before i j = true -> before j k = true -> before i k = true.

Hypothesis before_between :
  forall i j k, before i k = true -> before i j = true \/ before j k = true.

Lemma goes_first_trans (i j k : nat) :
  goes_first before i j -> goes_first before j k -> goes_first before i k.
Proof.
  unfold goes_first. intros [Hij | [Hji Lij]] [Hjk | [Hkj Ljk]].
  - left. eauto.
  - left. destruct (before_between i k j Hij) as [H|H]; [exact H | congruence].
  - left. destruct (before_between j i k Hjk) as [H|H]; [congruence | exact H].
  - right. split; [|lia].
    destruct (before k i) eqn:E; [|reflexivity].
    destruct (before_between k j i E); congruence.
Qed.

Lemma insert_row_perm (i : nat) (l : list nat) :
  Permutation (insert_row before i l) (i :: l).
Proof.
  induction l as [|j l IH]; simpl; [reflexivity|].
  destruct (before j i); [|reflexivity].
  rewrite IH. apply perm_swap.
Qed.

Lemma insert_row_sorted (i : nat) (l : list nat) :
  StronglySorted (goes_first before) l -> Forall (fun j => (i < j)%nat) l ->
  StronglySorted (goes_first before) (insert_row before i l).
Proof.
  intros Hl. induction Hl as [|j l Hl IH Hj]; intros Hi; simpl.
  - repeat constructor.
  - inversion Hi as [|? ? Hij Hil]; subst.
    destruct (before j i) eqn:E.
    + constructor; [now apply IH|].
      eapply Permutation_Forall; [symmetry; apply insert_row_perm|].
      constructor; [now left | exact Hj].
    + assert (G : goes_first before i j) by (right; auto).
      constructor; [now constructor|].
      constructor; [exact G|].
      eapply Forall_impl; [|exact Hj].
      intros z. now apply goes_first_trans.
Qed.

Lemma argsort_from (start n : nat) :
  let order := fold_right (insert_row before) [] (seq start n) in
  Permutation order (seq start n) /\ StronglySorted (goes_first before) order.
Proof.
  revert start. induction n as [|n IH]; intros start; simpl.
  - split; constructor.
  - destruct (IH (S start)) as [P S]. split.
    + now rewrite insert_row_perm, P.
    + apply insert_row_sorted; [exact S|].
      eapply Permutation_Forall; [symmetry; exact P|].
      apply Forall_forall. intros j Hj. apply in_seq in Hj. lia.
Qed.

End StableSort.

(** ** The order of the keys *)

Section FloatOrder.

Local Open Scope Z_scope.

Lemma SFcompare_rank (x y : spec_float) :
  match SFcompare x y, rank x, rank y with
  | Some Lt, Some a, Some b => lt3 a b
  | Some Eq, Some a, Some b => a = b
  | Some Gt, Some a, Some b => lt3 b a
  | None, None, _ | None, _, None => True
  | _, _, _ => False
  end.
Proof.
  destruct x as [sx|sx| |sx mx ex], y as [sy|sy| |sy my ey]; simpl;
    try (destruct sx); try (destruct sy); simpl; try lia; try exact I;
    try reflexivity.
  all: destruct (Z.compare_spec ex ey) as [E|E|E]; simpl; try lia.
  all: change (Pos.compare_cont Eq mx my) with (Pos.compare mx my).
  all: destruct (Pos.compare_spec mx my) as [F|F|F]; simpl; subst;
    try lia; try reflexivity.
Qed.

Ltac rank_cases x y :=
  let H := fresh "H" in
  pose proof (SFcompare_rank (Prim2SF x) (Prim2SF y)) as H;
  destruct (SFcompare (Prim2SF x) (Prim2SF y)) as [[| |]|];
  destruct (rank (Prim2SF x)) as [[[? ?] ?]|];
  destruct (rank (Prim2SF y)) as [[[? ?] ?]|];
  try contradiction; simpl in H.

Ltac rank_solve :=
  repeat match goal with
         | H : exists _, _ |- _ => destruct H
         | H : _ /\ _ |- _ => destruct H
         | H : Some _ = Some _ |- _ => injection H as H; subst
         | H : (_, _) = (_, _) |- _ => injection H as H; subst
         end;
  try discriminate; simpl in *;
  try solve [lia | eauto 6 | do 2 eexists; (repeat split; [reflexivity..|]); simpl; lia].

Lemma ltb_fkey (x y : num) :
  PrimFloat.ltb x y = true
  <-> exists a b, fkey x = Some a /\ fkey y = Some b /\ lt3 a b.
Proof.
  rewrite ltb_spec. unfold SFltb, fkey.
  rank_cases x y; split; intros G; rank_solve.
Qed.

Lemma eqb_fkey (x y : num) :
  PrimFloat.eqb x y = true
  <-> exists a, fkey x = Some a /\ fkey y = Some a.
Proof.
  rewrite eqb_spec. unfold SFeqb, fkey.
  rank_cases x y; split; intros G; rank_solve.
Qed.

Lemma is_nan_fkey (x : num) : PrimFloat.is_nan x = true <-> fkey x = None.
Proof.
  unfold PrimFloat.is_nan. rewrite negb_true_iff, <- not_true_iff_false.
  rewrite eqb_fkey. split.
  - intros H. destruct (fkey x) as [a|] eqn:E; [|reflexivity].
    elim H. now exists a.
  - intros E (a & Ea & _). congruence.
Qed.

(** The three views of a comparison, through the keys. *)
Lemma num_before_spec (asc : bool) (x y : num) :
  num_before asc x y = true
  <-> exists a, fkey x = Some a /\
        match fkey y with
        | Some b => if asc then lt3 a b else lt3 b a
        | None => True
        end.
Proof.
  unfold num_before.
  destruct (PrimFloat.is_nan x) eqn:Nx.
  - apply is_nan_fkey in Nx. rewrite Nx. split; [discriminate|].
    intros (a & E & _). discriminate.
  - assert (Kx : fkey x <> None) by (rewrite <- is_nan_fkey; congruence).
    destruct (fkey x) as [a|] eqn:Ex; [clear Kx | now elim Kx].
    destruct (PrimFloat.is_nan y) eqn:Ny.
    + apply is_nan_fkey in Ny. rewrite Ny. split; [|reflexivity].
      intros _. now exists a.
    + assert (Ky : fkey y <> None) by (rewrite <- is_nan_fkey; congruence).
      destruct (fkey y) as [b|] eqn:Ey; [clear Ky | now elim Ky].
      destruct asc; rewrite ltb_fkey, ?Ex, ?Ey; split.
      * intros (a' & b' & [= <-] & [= <-] & L). now exists a.
      * intros (a' & [= <-] & L). now exists a, b.
      * intros (b' & a' & [= <-] & [= <-] & L). now exists a.
      * intros (a' & [= <-] & L). now exists b, a.
Qed.

Lemma num_tie_spec (x y : num) : num_tie x y = true <-> fkey x = fkey y.
Proof.
  unfold num_tie. destruct (PrimFloat.is_nan x) eqn:Nx.
  - apply is_nan_fkey in Nx. rewrite Nx, is_nan_fkey. split; congruence.
  - assert (Kx : fkey x <> None) by (rewrite <- is_nan_fkey; congruence).
    rewrite eqb_fkey. split.
    + intros (a & -> & ->). reflexivity.
    + intros E. destruct (fkey x) as [a|]; [|now elim Kx]. now exists a.
Qed.

Lemma num_before_key (asc : bool) (x y : num) :
  num_before asc x y = true <-> key_lt asc (fkey x) (fkey y).
Proof.
  rewrite num_before_spec. unfold key_lt.
  destruct (fkey x) as [a|].
  - split; [now intros (a' & [= <-] & H) | intros H; now exists a].
  - split; [now intros (a' & E & _) | contradiction].
Qed.

Ltac num_order :=
  intros;
  rewrite ?num_before_key, ?num_tie_spec in *;
  repeat match goal with
         | |- context [fkey ?x] => generalize dependent (fkey x); intros
         | H : context [fkey ?x] |- _ => generalize dependent (fkey x); intros
         end;
  unfold key_lt, lt3 in *;
  repeat match goal with
         | a : bool |- _ => destruct a
         | k : option (Z * Z * Z) |- _ => destruct k as [[[? ?] ?]|]
         | H : Some _ = Some _ |- _ => injection H as H; subst
         | H : (_, _) = (_, _) |- _ => injection H as H; subst
         end;
  try discriminate; try tauto; try lia;
  try (left; reflexivity); try (left; lia);
  try (right; left; reflexivity); try (right; left; f_equal; lia).

Lemma num_before_trans (a : bool) (x y z : num) :
  num_before a x y = true -> num_before a y z = true ->
  num_before a x z = true.
Proof. num_order. Qed.

Lemma num_before_tie_l (a : bool) (x y z : num) :
  num_tie x y = true -> num_before a y z = true -> num_before a x z = true.
Proof. num_order. Qed.

Lemma num_before_tie_r (a : bool) (x y z : num) :
  num_before a x y = true -> num_tie y z = true -> num_before a x z = true.
Proof. num_order. Qed.

Lemma num_tie_sym (x y : num) : num_tie x y = true -> num_tie y x = true.
Proof. num_order. Qed.

Lemma num_tie_trans (x y z : num) :
  num_tie x y = true -> num_tie y z = true -> num_tie x z = true.
Proof. num_order. Qed.

Lemma key_trichotomy (a b : Z * Z * Z) : lt3 a b \/ a = b \/ lt3 b a.
Proof.
  destruct a as [[a1 a2] a3], b as [[b1 b2] b3]. unfold lt3.
  destruct (Z.lt_trichotomy a1 b1) as [H|[H|H]]; [lia| |lia].
  destruct (Z.lt_trichotomy a2 b2) as [G|[G|G]]; [lia| |lia].
  destruct (Z.lt_trichotomy a3 b3) as [F|[F|F]]; [lia| |lia].
  right. left. congruence.
Qed.

Lemma num_trichotomy (a : bool) (x y : num) :
  num_before a x y = true \/ num_tie x y = true \/ num_before a y x = true.
Proof.
  rewrite !num_before_key, num_tie_spec. unfold key_lt.
  destruct (fkey x) as [p|], (fkey y) as [q|]; auto.
  destruct (key_trichotomy p q) as [H|[H|H]]; destruct a; subst; auto.
Qed.

Lemma num_before_between (a : bool) (x y z : num) :
  num_before a x z = true ->
  num_before a x y = true \/ num_before a y z = true.
Proof.
  rewrite !num_before_key. unfold key_lt.
  destruct (fkey x) as [p|], (fkey y) as [q|], (fkey z) as [r|]; auto.
  destruct (key_trichotomy p q) as [H|[H|H]]; destruct a; subst; auto;
    intros G; right;
    destruct p as [[p1 p2] p3], q as [[q1 q2] q3], r as [[r1 r2] r3];
    unfold lt3 in *; lia.
Qed.

Lemma num_before_irrefl (a : bool) (x : num) : num_before a x x = false.
Proof.
  apply not_true_iff_false. num_order.
Qed.

Lemma num_before_asym (a : bool) (x y : num) :
  num_before a x y = true -> num_before a y x = false.
Proof.
  intros H. apply not_true_iff_false. revert H. num_order.
Qed.

Lemma num_tie_refl (x : num) : num_tie x x = true.
Proof. now apply num_tie_spec. Qed.

End FloatOrder.

Lemma num_before_desc (x y : num) : num_before false x y = true <-> higher x y.
Proof.
  unfold num_before, higher.
  destruct (PrimFloat.is_nan x), (PrimFloat.is_nan y);
    intuition congruence.
Qed.

Lemma eqb_not_nan (x y : num) :
  PrimFloat.eqb x y = true -> PrimFloat.is_nan x = false.
Proof.
  intros H. apply not_true_iff_false. rewrite is_nan_fkey.
  apply eqb_fkey in H as (a & E & _). congruence.
Qed.

Lemma num_tie_same (x y : num) : num_tie x y = true <-> same x y.
Proof.
  unfold num_tie, same. destruct (PrimFloat.is_nan x) eqn:N.
  - split; [auto|]. intros [[_ H] | H]; [exact H|].
    apply eqb_not_nan in H. congruence.
  - split; [auto|]. intros [[H _] | H]; [discriminate | exact H].
Qed.

Lemma row_before_trans (asc : list bool) (keys : list (list value))
      (i j k : nat) :
  row_before asc keys i j = true -> row_before asc keys j k = true ->
  row_before asc keys i k = true.
Proof.
  revert keys. induction asc as [|a asc IH]; intros [|col keys]; simpl;
    try discriminate.
  rewrite !orb_true_iff, !andb_true_iff.
  intros [H1 | [T1 R1]] [H2 | [T2 R2]].
  - left. eapply num_before_trans; eassumption.
  - left. eapply num_before_tie_r; eassumption.
  - left. eapply num_before_tie_l; eassumption.
  - right. split; [eapply num_tie_trans; eassumption | eauto].
Qed.

Lemma row_before_between (asc : list bool) (keys : list (list value))
      (i j k : nat) :
  row_before asc keys i k = true ->
  row_before asc keys i j = true \/ row_before asc keys j k = true.
Proof.
  revert keys. induction asc as [|a asc IH]; intros [|col keys]; simpl;
    try discriminate.
  rewrite !orb_true_iff, !andb_true_iff.
  intros [H | [T R]].
  - destruct (num_before_between a _ (key_at col j) _ H); auto.
  - destruct (num_trichotomy a (key_at col i) (key_at col j)) as [B | [E | B]].
    + auto.
    + destruct (IH keys R) as [G|G].
      * left. right. auto.
      * right. right. split; [|exact G].
        eapply num_tie_trans; [apply num_tie_sym|]; eassumption.
    + right. left. eapply num_before_tie_r; eassumption.
Qed.

(** ** Ranking *)

Lemma StronglySorted_impl {A : Type} (R R' : A -> A -> Prop) (l : list A) :
  (forall a b, R a b -> R' a b) -> StronglySorted R l -> StronglySorted R' l.
Proof.
  intros H. induction 1 as [|a l Hl IH Ha]; constructor; [exact IH|].
  eapply Forall_impl; [|exact Ha]. auto.
Qed.

Lemma has_column_df_get (name : string) (df : DataFrame) :
  has_column name df = true <-> df_get name df <> None.
Proof.
  unfold has_column, df_get. induction (columns df) as [|[k c] d IH]; simpl.
  - split; [discriminate | now intros H].
  - rewrite (String.eqb_sym name k). destruct (k =? name)%string; simpl.
    + split; [discriminate | reflexivity].
    + exact IH.
Qed.

Lemma metric_key_at (df : DataFrame) (name : string) (col : list value)
      (i : nat) :
  df_get name df = Some col -> metric df name i = key_at col i.
Proof.
  intros E. unfold metric, cell, key_at. rewrite E.
  destruct (nth_error col i) as [v|] eqn:En.
  - rewrite (nth_error_nth _ _ _ En). now destruct v.
  - apply nth_error_None in En. now rewrite nth_overflow.
Qed.

Lemma higher_cases (x y : num) : higher x y \/ same x y \/ higher y x.
Proof.
  rewrite <- !num_before_desc, <- num_tie_same. apply num_trichotomy.
Qed.

Lemma same_sym (x y : num) : same x y -> same y x.
Proof. rewrite <- !num_tie_same. apply num_tie_sym. Qed.

Section Ranking.

Variable parse_number : string -> parsed.
Variable sort_values_other :
  DataFrame -> list string -> list bool -> option DataFrame.

(** With both ratio columns in place and float64, the ranked view is the
    table reordered by the stable two-key sort. *)
Lemma df_sorted_two_keys (t : DataFrame) (cv ce : list value) :
  df_get "views_per_follower" t = Some cv ->
  df_get "er_per_follower" t = Some ce ->
  forallb is_float cv = true -> forallb is_float ce = true ->
  df_sorted sort_values_other t
  = take_rows (lexsort_indexer [cv; ce] [false; false] (nrows t)) t.
Proof.
  intros Ev Ee Fv Fe. unfold df_sorted.
  assert (Hv : has_column "views_per_follower" t = true).
  { apply has_column_df_get. now rewrite Ev. }
  assert (He : has_column "er_per_follower" t = true).
  { apply has_column_df_get. now rewrite Ee. }
  rewrite Hv, He. cbn [app map fst snd].
  unfold sort_values. cbn [key_columns]. rewrite Ev, Ee.
  cbn [forallb List.length Nat.leb Nat.eqb andb]. now rewrite Fv, Fe.
Qed.

Lemma ranked_before_goes_first (t : DataFrame) (cv ce : list value)
      (i j : nat) :
  df_get "views_per_follower" t = Some cv ->
  df_get "er_per_follower" t = Some ce ->
  goes_first (row_before [false; false] [cv; ce]) i j -> ranked_before t i j.
Proof.
  intros Ev Ee. unfold goes_first, ranked_before. cbn [row_before].
  rewrite (metric_key_at _ _ _ i Ev), (metric_key_at _ _ _ j Ev).
  rewrite (metric_key_at _ _ _ i Ee), (metric_key_at _ _ _ j Ee).
  generalize (key_at cv i) (key_at cv j) (key_at ce i) (key_at ce j).
  intros vi vj ei ej.
  rewrite !andb_false_r, !orb_false_r.
  rewrite !orb_true_iff, !orb_false_iff, !andb_true_iff, !andb_false_iff.
  rewrite <- !not_true_iff_false.
  rewrite !num_before_desc, !num_tie_same.
  pose proof (same_sym vi vj). pose proof (higher_cases vi vj).
  pose proof (higher_cases ei ej). tauto.
Qed.

Lemma setitem_numeric_float (name : string) (a : numeric) (f : Z)
      (df : DataFrame) :
  exists cells,
    df_get name (setitem_numeric name (numeric_div a f) df) = Some cells /\
    forallb is_float cells = true.
Proof.
  destruct a as [x|d xs]; simpl; eexists; (split; [apply df_get_setitem_eq|]).
  - induction (nrows df); simpl; auto.
  - induction xs; simpl; auto.
Qed.

Lemma setitem_scalar_float (name : string) (x : num) (df : DataFrame) :
  exists cells, df_get name (setitem_scalar name (VFloat x) df) = Some cells /\
                forallb is_float cells = true.
Proof.
  eexists. split; [apply df_get_setitem_eq|].
  induction (nrows df); simpl; auto.
Qed.

Lemma df_get_setitem_numeric_neq (name name' : string) (a : numeric)
      (df : DataFrame) :
  name <> name' ->
  df_get name' (setitem_numeric name a df) = df_get name' df.
Proof. intros H. destruct a; now apply lookup_assoc_set_neq. Qed.

(** Both ranking columns of a table that went through the calculator are
    there and hold floats. *)
Lemma compute_virality_ranking_columns (df : DataFrame) (followers : option Z)
      (name : string) :
  name = "views_per_follower" \/ name = "er_per_follower" ->
  exists cells,
    df_get name (compute_virality parse_number df followers) = Some cells /\
    forallb is_float cells = true.
Proof.
  intros Hname. destruct (no_followers followers) eqn:N.
  - unfold compute_virality. rewrite N. cbv zeta.
    destruct Hname as [-> | ->].
    + rewrite !df_get_setitem_scalar_neq by names_differ.
      apply setitem_scalar_float.
    + apply setitem_scalar_float.
  - destruct followers as [f|]; [|discriminate].
    assert (Hf : (0 < f)%Z).
    { simpl in N. apply orb_false_iff in N as [_ N].
      apply Z.leb_gt in N. exact N. }
    rewrite (compute_virality_positive parse_number df f Hf).
    destruct Hname as [-> | ->].
    + rewrite !df_get_setitem_numeric_neq by names_differ.
      apply setitem_numeric_float.
    + apply setitem_numeric_float.
Qed.

(** The ranked view of a table that went through the calculator: its rows
    in the order of the stable two-key sort. *)
Lemma df_sorted_order (df : DataFrame) (followers : option Z) :
  let out := compute_virality parse_number df followers in
  exists order,
    Permutation order (seq 0 (nrows out)) /\
    df_sorted sort_values_other out = take_rows order out /\
    StronglySorted (ranked_before out) order.
Proof.
  intros out.
  destruct (compute_virality_ranking_columns df followers
              "views_per_follower") as (cv & Ev & Fv); [now left|].
  destruct (compute_virality_ranking_columns df followers
              "er_per_follower") as (ce & Ee & Fe); [now right|].
  fold out in Ev, Ee.
  pose (before := row_before [false; false] [cv; ce]).
  destruct (argsort_from before
              (row_before_trans _ _) (row_before_between _ _)
              0 (nrows out)) as [P S].
  exists (lexsort_indexer [cv; ce] [false; false] (nrows out)).
  split; [exact P|]. split.
  - now apply df_sorted_two_keys.
  - eapply StronglySorted_impl; [|exact S].
    intros i j. now apply ranked_before_goes_first with (cv := cv) (ce := ce).
Qed.

End Ranking.

(** ** The whole pipeline *)

Section WholePipeline.

Variable parse_number : string -> parsed.
Variable sort_values_other :
  DataFrame -> list string -> list bool -> option DataFrame.

Lemma compute_virality_index (df : DataFrame) (followers : option Z) :
  index (compute_virality parse_number df followers) = index df.
Proof.
  unfold compute_virality. destruct (no_followers followers); cbv zeta.
  - reflexivity.
  - now rewrite !index_setitem_numeric.
Qed.

(** One row per post, in fetch order, in the table; the same rows, each
    once, in the ranked view. *)
Lemma run_pipeline_rows (medias : list Media) (followers : option Z) :
  let views := run_pipeline parse_number sort_values_other medias followers in
  index (fst views) = seq 0 (List.length medias) /\
  Permutation (index (snd views)) (index (fst views)).
Proof.
  cbv zeta. unfold run_pipeline. cbn [fst snd].
  set (rows := DataFrame_of_rows (map media_to_row medias)).
  assert (Ei : index (compute_virality parse_number rows followers)
               = seq 0 (List.length medias)).
  { rewrite compute_virality_index. unfold rows. simpl.
    now rewrite length_map. }
  split; [exact Ei|].
  destruct (df_sorted_order parse_number sort_values_other rows followers)
    as (order & P & -> & _).
  unfold nrows in P. cbn [index take_rows]. rewrite Ei in *.
  rewrite length_seq in P. unfold take.
  rewrite (map_ext_in _ (fun i => i)), map_id; [exact P|].
  intros i Hi. apply (Permutation_in _ P), in_seq in Hi.
  now rewrite seq_nth by lia.
Qed.

End WholePipeline.

Example run_pipeline_sample :
  index (snd (run_pipeline no_text_number sort_values_raises
                           [post 1 1 20; post 2 3 50; post 1 1 50]
                           (Some 100%Z)))
  = [1; 2; 0]%nat.
Proof. reflexivity. Qed.

(* ================================================================= *)
(** ** The theorems at the specification's samples *)

(** C1 at the specification's sample: no followers on a table of five
    rows. *)
Lemma compute_virality_without_followers_sample :
  no_follower_data (Some 0%Z) /\
  nrows five_rows = 5%nat /\
  nrows (compute_virality no_text_number five_rows (Some 0%Z)) = 5%nat /\
  Forall (fun name =>
            df_get name (compute_virality no_text_number five_rows (Some 0%Z))
            = Some (repeat (VFloat NaN) 5))
         METRIC_COLUMNS.
Proof.
  assert (H : no_follower_data (Some 0%Z)) by (simpl; lia).
  destruct (compute_virality_without_followers
              no_text_number five_rows (Some 0%Z) H) as (_ & Hn & Hcol & _).
  split; [exact H|]. split; [reflexivity|]. split; [exact Hn|].
  apply Forall_forall. exact Hcol.
Defined.




(** C5 on a handle written with two [@]. *)
Lemma parse_username_spec_sample :
  (forall h, ~ profile_url (strip "@@name") h) /\
  exists ats,
    strip "@@name" = ats ++ parse_username "@@name" /\
    all_in is_at ats = true /\
    not_starting is_at (parse_username "@@name") = true.
Proof.
  assert (H : forall h, ~ profile_url (strip "@@name") h).
  { intros h Hu. apply profile_direct_complete in Hu as (r & E).
    discriminate E. }
  split; [exact H|].
  exact (proj2 (proj2 (parse_username_spec "@@name")) H).
Defined.

(** C6 on a post with 7 views and 500 plays. *)
Lemma media_to_row_view_count_sample :
  lookup "view_count"
         (media_to_row (with_counters (Some (VInt 7)) (Some (VInt 500))))
  = Some (VInt 7).
Proof.
  exact (proj1 (media_to_row_view_count_fallback
                  (with_counters (Some (VInt 7)) (Some (VInt 500))))
               (VInt 7) eq_refl eq_refl).
Defined.

(** C7 on a carousel of two resources. *)
Lemma media_to_row_carousel_count_sample :
  lookup "carousel_count"
         (media_to_row (with_resources (Some (VList [VNone; VNone]))))
  = Some (VInt 2).
Proof.
  refine (proj1 (media_to_row_carousel_count_cases
                   (with_resources (Some (VList [VNone; VNone]))))
                [VNone; VNone] eq_refl _).
  discriminate.
Defined.

(** C10 at the specification's sample: a post URL yields the profile's
    handle. *)
Lemma parse_username_ignores_the_tail_sample :
  strip "https://www.instagram.com/alice/p/XYZ/"
  = "https://" ++ "www." ++ "instagram.com/" ++ "alice" ++ "/p/XYZ/" /\
  parse_username "https://www.instagram.com/alice/p/XYZ/" = "alice".
Proof.
  split; [reflexivity|].
  refine (proj2 (parse_username_ignores_the_tail
                   "https://www.instagram.com/alice/p/XYZ/"
                   "https://" "www." "alice" "/p/XYZ/"
                   eq_refl _ _ _ eq_refl) eq_refl).
  - now right; right.
  - now right.
  - discriminate.
Defined.

(* ================================================================= *)
(** * Further properties of the code *)

(** ** More on the identifier parser *)

Lemma handle_char_not_space (c : ascii) :
  handle_char c = true -> isspace c = false.
Proof. destruct c as [[] [] [] [] [] [] [] []]; now vm_compute. Qed.

Lemma handle_char_not_at (c : ascii) :
  handle_char c = true -> is_at c = false.
Proof. destruct c as [[] [] [] [] [] [] [] []]; now vm_compute. Qed.

Lemma all_in_not_starting (cls bad : ascii -> bool) (s : string) :
  (forall c, cls c = true -> bad c = false) ->
  all_in cls s = true -> not_starting bad s = true.
Proof.
  intros H. destruct s as [|c s]; simpl; [reflexivity|].
  intros E. apply andb_true_iff in E as [E _]. now rewrite (H c E).
Qed.

Lemma all_in_not_ending (cls bad : ascii -> bool) (s : string) :
  (forall c, cls c = true -> bad c = false) ->
  all_in cls s = true -> not_ending bad s = true.
Proof.
  intros H. induction s as [|c s IH]; simpl; [reflexivity|].
  intros E. apply andb_true_iff in E as [Ec Es].
  destruct s; [now rewrite (H c Ec) | now apply IH].
Qed.

Lemma lstrip_id (cls : ascii -> bool) (s : string) :
  not_starting cls s = true -> lstrip cls s = s.
Proof.
  destruct s as [|c s]; simpl; [reflexivity|].
  intros H. apply negb_true_iff in H. now rewrite H.
Qed.

Lemma rstrip_id (cls : ascii -> bool) (s : string) :
  not_ending cls s = true -> rstrip cls s = s.
Proof.
  induction s as [|c s IH]; [reflexivity|].
  intros H. cbn [rstrip]. destruct s as [|d s].
  - simpl in *. apply negb_true_iff in H. now rewrite H.
  - rewrite IH by exact H. reflexivity.
Qed.

Lemma strip_id (s : string) :
  not_starting isspace s = true -> not_ending isspace s = true ->
  strip s = s.
Proof. intros Hs He. unfold strip. now rewrite lstrip_id, rstrip_id. Qed.

Lemma not_ending_append (cls : ascii -> bool) (a b : string) :
  b <> "" -> not_ending cls (a ++ b) = not_ending cls b.
Proof.
  intros Hb. induction a as [|c a IH]; [reflexivity|].
  cbn [append not_ending]. destruct (a ++ b) eqn:E; [|exact IH].
  destruct a; simpl in E; [now elim Hb | discriminate].
Qed.

(** Nothing made of handle characters only begins like a profile URL. *)
Lemma profile_direct_of_handle (h : string) :
  all_in handle_char h = true -> profile_direct h = None.
Proof.
  intros Hh. destruct (profile_direct h) as [m|] eqn:E; [|reflexivity].
  destruct (profile_direct_sound _ _ E)
    as (x & _ & scheme & www & tail & -> & _).
  rewrite !all_in_append in Hh.
  replace (all_in handle_char "instagram.com/") with false in Hh by reflexivity.
  rewrite !andb_false_r in Hh. simpl in Hh.
  rewrite ?andb_false_r in Hh. discriminate.
Qed.

Lemma parse_username_of_handle (h : string) :
  all_in handle_char h = true -> parse_username h = h.
Proof.
  intros Hh. unfold parse_username.
  rewrite strip_id
    by (eapply all_in_not_starting || eapply all_in_not_ending;
        eauto using handle_char_not_space).
  rewrite re_match_PROFILE_RE, profile_direct_of_handle by exact Hh.
  apply lstrip_id. eapply all_in_not_starting; eauto using handle_char_not_at.
Qed.

Lemma parse_username_of_at_handle (h : string) :
  h <> "" -> all_in handle_char h = true -> parse_username ("@" ++ h) = h.
Proof.
  intros Hne Hh. unfold parse_username.
  assert (Es : strip ("@" ++ h) = "@" ++ h).
  { apply strip_id; [reflexivity|].
    rewrite not_ending_append by exact Hne.
    eapply all_in_not_ending; eauto using handle_char_not_space. }
  rewrite Es, re_match_PROFILE_RE.
  destruct (profile_direct ("@" ++ h)) as [m|] eqn:E.
  - destruct (profile_direct_sound _ _ E)
      as (x & _ & scheme & www & tail & Eq & Hs & Hw & _).
    destruct Hs as [-> | [-> | ->]], Hw as [-> | ->]; discriminate Eq.
  - simpl. apply lstrip_id.
    eapply all_in_not_starting; eauto using handle_char_not_at.
Qed.

Lemma parse_username_of_profile_url (scheme www h slash : string) :
  scheme = "" \/ scheme = "http://" \/ scheme = "https://" ->
  www = "" \/ www = "www." ->
  slash = "" \/ slash = "/" ->
  h <> "" -> all_in handle_char h = true ->
  parse_username (url_of scheme www h slash) = h.
Proof.
  intros Hs Hw Hl Hne Hh. apply parse_username_of_url.
  assert (Es : strip (url_of scheme www h slash) = url_of scheme www h slash).
  { unfold url_of. apply strip_id.
    - destruct Hs as [-> | [-> | ->]], Hw as [-> | ->]; reflexivity.
    - assert (N1 : www ++ "instagram.com/" ++ h ++ slash <> "")
        by (destruct Hw as [-> | ->]; discriminate).
      assert (N2 : "instagram.com/" ++ h ++ slash <> "") by discriminate.
      assert (N3 : h ++ slash <> "") by (destruct h; [now elim Hne | discriminate]).
      rewrite (not_ending_append _ _ _ N1), (not_ending_append _ _ _ N2),
        (not_ending_append _ _ _ N3).
      destruct Hl as [-> | ->].
      + rewrite append_nil_r.
        eapply all_in_not_ending; eauto using handle_char_not_space.
      + now rewrite not_ending_append by discriminate. }
  rewrite Es. exists scheme, www, slash. repeat split; auto.
  destruct Hl as [-> | ->]; reflexivity.
Qed.

(** X1. A handle (letters, digits, [_] and [.], at least one) is what
    [parse_username] returns for the handle itself, for the handle behind an
    [@], and for its profile URL in any of the twelve spellings (scheme or
    not, [www.] or not, closing slash or not). *)
Theorem parse_username_canonical :
  forall h scheme www slash : string,
    h <> "" -> all_in handle_char h = true ->
    scheme = "" \/ scheme = "http://" \/ scheme = "https://" ->
    www = "" \/ www = "www." ->
    slash = "" \/ slash = "/" ->
    parse_username h = h /\
    parse_username ("@" ++ h) = h /\
    parse_username (url_of scheme www h slash) = h.
Proof.
  intros h scheme www slash Hne Hh Hs Hw Hl. repeat split.
  - now apply parse_username_of_handle.
  - now apply parse_username_of_at_handle.
  - now apply parse_username_of_profile_url.
Qed.

Lemma lstrip_all (cls : ascii -> bool) (l s : string) :
  all_in cls l = true -> lstrip cls (l ++ s) = lstrip cls s.
Proof.
  induction l as [|c l IH]; simpl; [reflexivity|].
  intros H. apply andb_true_iff in H as [Hc Hl]. rewrite Hc. now apply IH.
Qed.

Lemma rstrip_all (cls : ascii -> bool) (r : string) :
  all_in cls r = true -> rstrip cls r = "".
Proof.
  induction r as [|c r IH]; simpl; [reflexivity|].
  intros H. apply andb_true_iff in H as [Hc Hr]. now rewrite IH, Hc.
Qed.

Lemma rstrip_append_all (cls : ascii -> bool) (s r : string) :
  all_in cls r = true -> rstrip cls (s ++ r) = rstrip cls s.
Proof.
  intros Hr. induction s as [|c s IH]; simpl.
  - now apply rstrip_all.
  - now rewrite IH.
Qed.

Lemma lstrip_append (cls : ascii -> bool) (s r : string) :
  lstrip cls (s ++ r)
  = match lstrip cls s with
    | EmptyString => lstrip cls r
    | String _ _ => lstrip cls s ++ r
    end.
Proof.
  induction s as [|c s IH]; simpl.
  - now destruct (lstrip cls r).
  - destruct (cls c); [exact IH | reflexivity].
Qed.

Lemma lstrip_all_empty (cls : ascii -> bool) (r : string) :
  all_in cls r = true -> lstrip cls r = "".
Proof.
  induction r as [|c r IH]; simpl; [reflexivity|].
  intros H. apply andb_true_iff in H as [Hc Hr]. rewrite Hc. now apply IH.
Qed.

Lemma strip_padded (l v r : string) :
  all_in isspace l = true -> all_in isspace r = true ->
  strip (l ++ v ++ r) = strip v.
Proof.
  intros Hl Hr. unfold strip. rewrite lstrip_all by exact Hl.
  rewrite lstrip_append. destruct (lstrip isspace v) eqn:E.
  - now rewrite lstrip_all_empty.
  - now rewrite rstrip_append_all.
Qed.

(** X2. Whitespace around the input does not change the result. *)
Theorem parse_username_ignores_padding :
  forall l v r : string,
    all_in isspace l = true -> all_in isspace r = true ->
    parse_username (l ++ v ++ r) = parse_username v.
Proof.
  intros l v r Hl Hr. unfold parse_username. now rewrite strip_padded.
Qed.

Lemma drop_while_empty_iff (cls : ascii -> bool) (s : string) :
  drop_while cls s = "" <-> all_in cls s = true.
Proof.
  induction s as [|c s IH]; simpl; [tauto|].
  destruct (cls c); simpl; [exact IH | split; discriminate].
Qed.

(** The result is empty exactly when the stripped input is made of [@]
    characters only, the empty input included. *)
Lemma parse_username_empty :
  forall value : string,
    parse_username value = "" <-> all_in is_at (strip value) = true.
Proof.
  intros value. unfold parse_username. rewrite re_match_PROFILE_RE.
  destruct (profile_direct (strip value)) as [m|] eqn:E.
  - destruct (profile_direct_sound _ _ E)
      as (h & Eg & scheme & www & tail & -> & _ & _ & Hne & _).
    unfold group. rewrite Eg. rewrite !all_in_append.
    replace (all_in is_at "instagram.com/") with false by reflexivity.
    rewrite !andb_false_r. simpl. rewrite ?andb_false_r.
    split; [contradiction | discriminate].
  - rewrite lstrip_drop_while. apply drop_while_empty_iff.
Qed.

Lemma not_ending_drop_while (cls p : ascii -> bool) (s : string) :
  not_ending cls s = true -> not_ending cls (drop_while p s) = true.
Proof.
  induction s as [|c s IH]; [reflexivity|].
  intros H. cbn [drop_while]. destruct (p c); [|exact H].
  apply IH. destruct s; [reflexivity | exact H].
Qed.

(** X4. The result never begins with [@] and never ends with whitespace.
    When the stripped input begins like a profile URL the result is a handle
    (not empty, handle characters only) and parsing it again gives it back. *)
Theorem parse_username_result_shape :
  forall value : string,
    not_starting is_at (parse_username value) = true /\
    not_ending isspace (parse_username value) = true /\
    (forall h, profile_url (strip value) h ->
               parse_username value <> "" /\
               all_in handle_char (parse_username value) = true /\
               parse_username (parse_username value) = parse_username value).
Proof.
  intros value.
  assert (U : forall h, profile_url (strip value) h ->
                        parse_username value = h /\ h <> "" /\
                        all_in handle_char h = true).
  { intros h Hu. split; [now apply parse_username_of_url|].
    destruct Hu as (scheme & www & tail & _ & _ & _ & Hne & Hh & _). auto. }
  destruct (profile_direct (strip value)) as [m|] eqn:E.
  - destruct (profile_direct_sound _ _ E) as (h & _ & Hu).
    destruct (U h Hu) as (-> & Hne & Hh). repeat split.
    + eapply all_in_not_starting; eauto using handle_char_not_at.
    + eapply all_in_not_ending; eauto using handle_char_not_space.
    + now destruct (U h0 H) as (<- & _).
    + now destruct (U h0 H) as (<- & _).
    + now rewrite parse_username_of_handle.
  - assert (N : forall h, ~ profile_url (strip value) h).
    { intros h Hu. apply profile_direct_complete in Hu as (r & Er). congruence. }
    rewrite (parse_username_of_other _ N), lstrip_drop_while. repeat split.
    + apply not_starting_drop_while.
    + apply not_ending_drop_while.
      destruct (strip_spec value) as (l & r & _ & _ & _ & _ & He). exact He.
    + now elim (N h).
    + now elim (N h).
    + now elim (N h).
Qed.

(** X1 on a sample handle. *)
Lemma parse_username_canonical_sample :
  parse_username "alice_01" = "alice_01" /\
  parse_username "@alice_01" = "alice_01" /\
  parse_username "https://www.instagram.com/alice_01/" = "alice_01".
Proof.
  refine (parse_username_canonical "alice_01" "https://" "www." "/"
            _ eq_refl _ _ _).
  - discriminate.
  - now right; right.
  - now right.
  - now right.
Defined.

(** X2 on a padded input. *)
Lemma parse_username_ignores_padding_sample :
  parse_username (" " ++ "@bob" ++ "  ") = parse_username "@bob".
Proof.
  exact (parse_username_ignores_padding " " "@bob" "  " eq_refl eq_refl).
Defined.

(** ** The profile field *)

Lemma strip_idempotent (s : string) : strip (strip s) = strip s.
Proof.
  destruct (strip_spec s) as (l & r & _ & _ & _ & Hs & He).
  now apply strip_id.
Qed.

Lemma strip_empty_iff (s : string) : strip s = "" <-> all_in isspace s = true.
Proof.
  split.
  - intros E. destruct (strip_spec s) as (l & r & Es & Hl & Hr & _).
    rewrite E in Es. simpl in Es. rewrite Es, all_in_append. now rewrite Hl, Hr.
  - intros H. unfold strip. now rewrite lstrip_all_empty.
Qed.

(** X3. [run_parser] turns the field down exactly when it holds nothing
    but whitespace.  Otherwise the handle the worker asks the client for is
    [parse_username] of the field as typed (stripping it first changes
    nothing), and that handle is empty exactly when the stripped field is
    made of [@] characters only: the guard does not keep an empty handle
    from the client. *)
Theorem target_username_spec :
  forall field : string,
    (target_username field = None <-> all_in isspace field = true) /\
    (forall u, target_username field = Some u -> u = parse_username field) /\
    (target_username field = Some ""
     <-> strip field <> "" /\ all_in is_at (strip field) = true) /\
    (parse_username field = "" <-> all_in is_at (strip field) = true).
Proof.
  intros field. unfold target_username. cbv zeta.
  assert (P : parse_username (strip field) = parse_username field).
  { unfold parse_username. now rewrite strip_idempotent. }
  rewrite P. destruct (String.eqb_spec (strip field) "") as [E|E].
  - repeat split; try discriminate.
    + intros _. now apply strip_empty_iff.
    + intros [H _]. contradiction.
    + apply parse_username_empty.
    + apply parse_username_empty.
  - repeat split; try discriminate.
    + intros H. apply strip_empty_iff in H. contradiction.
    + now intros u [= <-].
    + exact E.
    + injection H as H. now apply parse_username_empty.
    + intros [_ H]. f_equal. now apply parse_username_empty.
    + apply parse_username_empty.
    + apply parse_username_empty.
Qed.

(** ** More on the text entity extractor *)

Lemma append_split (a b c d : string) :
  a ++ b = c ++ d ->
  (exists m, c = a ++ m /\ b = m ++ d) \/ (exists m, a = c ++ m /\ d = m ++ b).
Proof.
  revert c. induction a as [|x a IH]; intros c E; simpl in E.
  - left. exists c. auto.
  - destruct c as [|y c]; simpl in E.
    + right. exists (String x a). auto.
    + injection E as -> E. destruct (IH c E) as [(m & -> & ->) | (m & -> & ->)].
      * left. exists m. auto.
      * right. exists m. auto.
Qed.

Lemma not_starting_append (cls : ascii -> bool) (a b : string) :
  not_starting cls a = true -> not_starting cls b = true ->
  not_starting cls (a ++ b) = true.
Proof. now destruct a. Qed.

Lemma not_starting_prefix (cls : ascii -> bool) (a b : string) :
  not_starting cls (a ++ b) = true -> not_starting cls a = true.
Proof. now destruct a. Qed.

(** Two texts put side by side with a character between them that is
    neither the mark nor of the set: the tagged runs are those of the one
    and those of the other. *)
Lemma tagged_append (mark sep : ascii) (cls : ascii -> bool)
      (t1 t2 x : string) :
  cls sep = false -> sep <> mark ->
  tagged mark cls (t1 ++ String sep t2) x
  <-> tagged mark cls t1 x \/ tagged mark cls t2 x.
Proof.
  intros Hsep Hne. split.
  - intros (pre & post & E & Hx & Hall & Hpost).
    apply append_split in E as [(m & -> & E) | (m & -> & E)].
    + right. destruct m as [|c m]; simpl in E; injection E as E1 E2.
      * now elim Hne.
      * subst. now exists m, post.
    + left. destruct m as [|c m]; simpl in E; injection E as E1 E2.
      * now elim Hne.
      * subst c. apply append_split in E2 as [(n & -> & E) | (n & E1 & E)].
        -- exists pre, n. repeat split; auto.
           subst post. eapply not_starting_prefix; eassumption.
        -- destruct n as [|c n]; simpl in E; [|injection E as E2 E3].
           ++ rewrite append_nil_r in E1. subst m.
              exists pre, "". now rewrite append_nil_r.
           ++ subst. rewrite all_in_append in Hall. simpl in Hall.
              rewrite Hsep in Hall. rewrite andb_false_r in Hall. discriminate.
  - intros [(pre & post & -> & Hx & Hall & Hpost)
           | (pre & post & -> & Hx & Hall & Hpost)].
    + exists pre, (post ++ String sep t2). repeat split; auto.
      * rewrite append_assoc. simpl. now rewrite append_assoc.
      * apply not_starting_append; [exact Hpost|]. simpl. now rewrite Hsep.
    + exists (t1 ++ String sep pre), post. repeat split; auto.
      now rewrite append_assoc.
Qed.

Lemma ascending_NoDup (l : list string) : ascending l -> NoDup l.
Proof.
  unfold ascending. induction 1 as [|a l Hl IH Ha]; constructor; [|exact IH].
  intros Hin. rewrite Forall_forall in Ha.
  exact (codepoint_lt_irrefl a (Ha a Hin)).
Qed.

Lemma ascending_same_members (l1 l2 : list string) :
  ascending l1 -> ascending l2 -> (forall x, In x l1 <-> In x l2) -> l1 = l2.
Proof.
  intros H1 H2 H. apply ascending_unique; [exact H1 | exact H2|].
  apply NoDup_Permutation; auto using ascending_NoDup.
Qed.

(** X5. Nothing is made up: every hashtag returned is a run of word
    characters, not empty, that stands in the text right after a [#]; every
    mention is a run of letters, digits, [_] and [.], not empty, that stands
    in the text right after an [@]. *)
Theorem extract_entities_sound :
  forall (t x : string),
    (In x (extract_hashtags (Some t)) ->
     x <> "" /\ all_in word_char x = true /\
     exists pre post, t = pre ++ "#" ++ x ++ post) /\
    (In x (extract_mentions (Some t)) ->
     x <> "" /\ all_in handle_char x = true /\
     exists pre post, t = pre ++ "@" ++ x ++ post).
Proof.
  intros t x. split; intros H.
  - apply extract_hashtags_In in H as (t' & [= <-] & pre & post & E & Hx & Ha & _).
    repeat split; auto. now exists pre, post.
  - apply extract_mentions_In in H as (t' & [= <-] & pre & post & E & Hx & Ha & _).
    repeat split; auto. now exists pre, post.
Qed.

Lemma extract_hashtags_joined (sep : ascii) (t1 t2 x : string) :
  word_char sep = false -> sep <> "#"%char ->
  In x (extract_hashtags (Some (t1 ++ String sep t2)))
  <-> In x (extract_hashtags (Some t1)) \/ In x (extract_hashtags (Some t2)).
Proof.
  intros Hs Hne. rewrite !extract_hashtags_In. split.
  - intros (t & [= <-] & H). apply tagged_append in H; [|assumption..].
    destruct H; eauto.
  - intros [(t & [= <-] & H) | (t & [= <-] & H)];
      (eexists; split; [reflexivity|]); apply tagged_append; auto.
Qed.

Lemma extract_mentions_joined (sep : ascii) (t1 t2 x : string) :
  handle_char sep = false -> sep <> "@"%char ->
  In x (extract_mentions (Some (t1 ++ String sep t2)))
  <-> In x (extract_mentions (Some t1)) \/ In x (extract_mentions (Some t2)).
Proof.
  intros Hs Hne. rewrite !extract_mentions_In. split.
  - intros (t & [= <-] & H). apply tagged_append in H; [|assumption..].
    destruct H; eauto.
  - intros [(t & [= <-] & H) | (t & [= <-] & H)];
      (eexists; split; [reflexivity|]); apply tagged_append; auto.
Qed.

(** X6. Two texts joined by a character that is no word character, no
    period, no [#] and no [@] (a space, a line break) give the tags of the
    one together with the tags of the other.  So the result does not depend
    on the order of the two texts, and a text repeated gives what the text
    gives. *)
Theorem extract_entities_of_joined :
  forall (sep : ascii) (t1 t2 : string),
    word_char sep = false -> handle_char sep = false ->
    sep <> "#"%char -> sep <> "@"%char ->
    let joined a b := Some (a ++ String sep b) in
    (forall x, In x (extract_hashtags (joined t1 t2))
               <-> In x (extract_hashtags (Some t1))
                   \/ In x (extract_hashtags (Some t2))) /\
    (forall x, In x (extract_mentions (joined t1 t2))
               <-> In x (extract_mentions (Some t1))
                   \/ In x (extract_mentions (Some t2))) /\
    extract_hashtags (joined t1 t2) = extract_hashtags (joined t2 t1) /\
    extract_mentions (joined t1 t2) = extract_mentions (joined t2 t1) /\
    extract_hashtags (joined t1 t1) = extract_hashtags (Some t1) /\
    extract_mentions (joined t1 t1) = extract_mentions (Some t1).
Proof.
  intros sep t1 t2 Hw Hh Nh Na joined. subst joined. cbv beta.
  repeat split; try (now apply extract_hashtags_joined);
    try (now apply extract_mentions_joined);
    apply ascending_same_members;
    try apply extract_hashtags_ascending; try apply extract_mentions_ascending;
    intros x;
    rewrite ?extract_hashtags_joined, ?extract_mentions_joined by assumption;
    tauto.
Qed.

(** X6 on two short captions. *)
Lemma extract_entities_of_joined_sample :
  extract_hashtags (Some ("#b @x" ++ String " " "#a #b"))
  = extract_hashtags (Some ("#a #b" ++ String " " "#b @x")).
Proof.
  exact (proj1 (proj2 (proj2
    (extract_entities_of_joined " " "#b @x" "#a #b"
       eq_refl eq_refl ltac:(discriminate) ltac:(discriminate))))).
Defined.

(** ** The joined cells *)

Lemma append_cancel (a b c : string) : a ++ b = a ++ c -> b = c.
Proof. induction a as [|x a IH]; simpl; [auto|]. intros [= E]. auto. Qed.

Lemma concat_tags_head (cls : ascii -> bool) (x : string) (l : list string) :
  cls ","%char = false -> tag_of cls x ->
  take_while cls (String.concat ", " (x :: l)) = x /\
  drop_while cls (String.concat ", " (x :: l))
  = match l with
    | [] => ""
    | _ :: _ => ", " ++ String.concat ", " l
    end.
Proof.
  intros Hc [_ Hx]. destruct l as [|y l]; cbn [String.concat].
  - rewrite <- (append_nil_r x) at 1 3. now apply take_while_run.
  - apply take_while_run; [exact Hx|]. simpl. now rewrite Hc.
Qed.

Lemma concat_tags_inj (cls : ascii -> bool) (l1 l2 : list string) :
  cls ","%char = false ->
  Forall (tag_of cls) l1 -> Forall (tag_of cls) l2 ->
  String.concat ", " l1 = String.concat ", " l2 -> l1 = l2.
Proof.
  intros Hc H1. revert l2.
  induction H1 as [|x l1 Hx H1 IH]; intros l2 H2 E.
  - destruct H2 as [|y l2 Hy H2]; [reflexivity|].
    destruct (concat_tags_head cls y l2 Hc Hy) as [Et _].
    rewrite <- E in Et. simpl in Et. destruct Hy as [Hy _]. now elim Hy.
  - destruct H2 as [|y l2 Hy H2].
    + destruct (concat_tags_head cls x l1 Hc Hx) as [Et _].
      rewrite E in Et. simpl in Et. destruct Hx as [Hx _]. now elim Hx.
    + destruct (concat_tags_head cls x l1 Hc Hx) as [Et Ed].
      destruct (concat_tags_head cls y l2 Hc Hy) as [Et' Ed'].
      rewrite E in Et, Ed. rewrite Et' in Et. subst y.
      rewrite Ed' in Ed. f_equal.
      destruct l1 as [|a l1], l2 as [|b l2]; try discriminate; [reflexivity|].
      apply IH; [exact H2|]. now apply append_cancel in Ed.
Qed.

Lemma media_to_row_hashtags (m : Media) :
  lookup "hashtags" (media_to_row m)
  = Some (VStr (String.concat ", "
                  (extract_hashtags (get_text (m_caption_text m))))).
Proof.
  unfold media_to_row.
  now destruct (truthy (get (m_resources m))
                && isinstance_list (get (m_resources m))).
Qed.

Lemma media_to_row_mentions (m : Media) :
  lookup "mentions" (media_to_row m)
  = Some (VStr (String.concat ", "
                  (extract_mentions (get_text (m_caption_text m))))).
Proof.
  unfold media_to_row.
  now destruct (truthy (get (m_resources m))
                && isinstance_list (get (m_resources m))).
Qed.

Lemma extract_hashtags_tags (text : option string) :
  Forall (tag_of word_char) (extract_hashtags text).
Proof.
  apply Forall_forall. intros x H.
  apply extract_hashtags_In in H as (t & _ & pre & post & _ & Hx & Ha & _).
  now split.
Qed.

Lemma extract_mentions_tags (text : option string) :
  Forall (tag_of handle_char) (extract_mentions text).
Proof.
  apply Forall_forall. intros x H.
  apply extract_mentions_In in H as (t & _ & pre & post & _ & Hx & Ha & _).
  now split.
Qed.

(** X7. The [hashtags] and [mentions] cells lose nothing: two posts have
    the same cell exactly when their captions have the same list of tags,
    and a cell is the empty string exactly when the caption has none. *)
Theorem media_to_row_entity_cells :
  forall m1 m2 : Media,
    let tags m := extract_hashtags (get_text (m_caption_text m)) in
    let ments m := extract_mentions (get_text (m_caption_text m)) in
    (lookup "hashtags" (media_to_row m1) = lookup "hashtags" (media_to_row m2)
     <-> tags m1 = tags m2) /\
    (lookup "mentions" (media_to_row m1) = lookup "mentions" (media_to_row m2)
     <-> ments m1 = ments m2) /\
    (lookup "hashtags" (media_to_row m1) = Some (VStr "") <-> tags m1 = []) /\
    (lookup "mentions" (media_to_row m1) = Some (VStr "") <-> ments m1 = []).
Proof.
  intros m1 m2 tags ments. subst tags ments. cbv beta.
  rewrite !media_to_row_hashtags, !media_to_row_mentions.
  repeat split; intros H; try (now rewrite H).
  - injection H as H. apply (concat_tags_inj word_char);
      [reflexivity | apply extract_hashtags_tags..| exact H].
  - injection H as H. apply (concat_tags_inj handle_char);
      [reflexivity | apply extract_mentions_tags..| exact H].
  - injection H as H. apply (concat_tags_inj word_char);
      [reflexivity | apply extract_hashtags_tags | constructor | exact H].
  - injection H as H. apply (concat_tags_inj handle_char);
      [reflexivity | apply extract_mentions_tags | constructor | exact H].
Qed.

(** ** More on the virality calculator *)

Lemma assoc_set_same {A : Type} (k : string) (v : A) (d : list (string * A)) :
  lookup k d = Some v -> assoc_set k v d = d.
Proof.
  induction d as [|[k0 v0] d IH]; simpl; [discriminate|].
  destruct (String.eqb_spec k0 k) as [->|Hne].
  - now intros [= ->].
  - intros H. now rewrite IH.
Qed.

Lemma assoc_set_keys_new {A : Type} (k : string) (v : A)
      (d : list (string * A)) :
  lookup k d = None -> map fst (assoc_set k v d) = (map fst d ++ [k])%list.
Proof.
  induction d as [|[k0 v0] d IH]; simpl; [reflexivity|].
  destruct (k0 =? k)%string; [discriminate|].
  intros H. simpl. now rewrite IH.
Qed.

Lemma assoc_set_keys_old {A : Type} (k : string) (v : A)
      (d : list (string * A)) :
  lookup k d <> None -> map fst (assoc_set k v d) = map fst d.
Proof.
  induction d as [|[k0 v0] d IH]; simpl; [now intros H|].
  destruct (String.eqb_spec k0 k) as [->|Hne]; [reflexivity|].
  intros H. simpl. now rewrite IH.
Qed.

Lemma setitem_same (name : string) (cells : list value) (df : DataFrame) :
  df_get name df = Some cells -> setitem name cells df = df.
Proof.
  intros H. unfold setitem. rewrite assoc_set_same by exact H. now destruct df.
Qed.

Lemma rectangular_setitem (name : string) (cells : list value)
      (df : DataFrame) :
  rectangular df -> List.length cells = nrows df ->
  rectangular (setitem name cells df).
Proof.
  unfold rectangular, setitem, nrows. simpl.
  generalize (List.length (index df)) as n. intros n H Hc.
  induction H as [|[k c] d Hk Hd IH]; simpl.
  - repeat constructor. exact Hc.
  - destruct (k =? name)%string; constructor; auto.
Qed.

Lemma setitem_numeric_cells (name : string) (a : numeric) (df : DataFrame) :
  setitem_numeric name a df = setitem name (cells_of a (nrows df)) df.
Proof. now destruct a. Qed.

Lemma cells_of_length (a : numeric) (n : nat) :
  fits a n -> List.length (cells_of a n) = n.
Proof.
  destruct a; simpl; intros H; [apply repeat_length | now rewrite length_map].
Qed.

Lemma length_map2 {A B C : Type} (g : A -> B -> C) (l : list A) (l' : list B) :
  List.length l = List.length l' -> List.length (map2 g l l') = List.length l.
Proof.
  revert l'. induction l as [|a l IH]; intros [|b l']; simpl; try discriminate;
    auto.
Qed.

Lemma fits_div (a : numeric) (f : Z) (n : nat) :
  fits a n -> fits (numeric_div a f) n.
Proof. destruct a; simpl; auto. intros H. now rewrite length_map. Qed.

Lemma fits_add (a b : numeric) (n : nat) :
  fits a n -> fits b n -> fits (numeric_add a b) n.
Proof.
  destruct a, b; simpl; auto; intros H1 H2; rewrite ?length_map; auto.
  rewrite length_map2; congruence.
Qed.

Section ViralityMore.

Variable parse_number : string -> parsed.

Lemma fits_to_numeric (df : DataFrame) (name : string) :
  rectangular df -> fits (to_numeric parse_number (df_get name df)) (nrows df).
Proof.
  intros Hr. destruct (df_get name df) as [c|] eqn:E; simpl; [|exact I].
  rewrite !length_map. eapply rectangular_column; eassumption.
Qed.

Lemma rectangular_setitem_numeric (name : string) (a : numeric)
      (df : DataFrame) :
  rectangular df -> fits a (nrows df) ->
  rectangular (setitem_numeric name a df).
Proof.
  intros Hr Hf. rewrite setitem_numeric_cells.
  apply rectangular_setitem; [exact Hr | now apply cells_of_length].
Qed.

(** The two forms of the result. *)
Lemma compute_virality_cases (df : DataFrame) (followers : option Z) :
  (no_follower_data followers /\
   compute_virality parse_number df followers
   = setitem_scalar "er_per_follower" (VFloat NaN)
       (setitem_scalar "comments_per_follower" (VFloat NaN)
          (setitem_scalar "likes_per_follower" (VFloat NaN)
             (setitem_scalar "views_per_follower" (VFloat NaN)
                (setitem_scalar "followers_at_scrape" (VFloat NaN) df)))))
  \/
  (exists f, followers = Some f /\ (0 < f)%Z /\
   let vc := to_numeric parse_number (df_get "view_count" df) in
   let lc := to_numeric parse_number (df_get "like_count" df) in
   let cc := to_numeric parse_number (df_get "comment_count" df) in
   compute_virality parse_number df followers
   = setitem_numeric "er_per_follower" (numeric_div (numeric_add lc cc) f)
       (setitem_numeric "comments_per_follower" (numeric_div cc f)
          (setitem_numeric "likes_per_follower" (numeric_div lc f)
             (setitem_numeric "views_per_follower" (numeric_div vc f)
                (setitem_scalar "followers_at_scrape" (VInt f) df))))).
Proof.
  destruct (no_followers followers) eqn:N.
  - left. split; [now apply no_followers_iff|].
    unfold compute_virality. now rewrite N.
  - right. destruct followers as [f|]; [|discriminate]. exists f.
    assert (Hf : (0 < f)%Z).
    { simpl in N. apply orb_false_iff in N as [_ N]. now apply Z.leb_gt in N. }
    split; [reflexivity|]. split; [exact Hf|].
    now apply compute_virality_positive.
Qed.

Lemma metric_names_differ (name : string) :
  ~ In name METRIC_COLUMNS ->
  "followers_at_scrape" <> name /\ "views_per_follower" <> name /\
  "likes_per_follower" <> name /\ "comments_per_follower" <> name /\
  "er_per_follower" <> name.
Proof. simpl. tauto. Qed.

Lemma has_column_setitem (name name' : string) (cells : list value)
      (df : DataFrame) :
  has_column name' (setitem name cells df) = true
  <-> has_column name' df = true \/ name' = name.
Proof.
  rewrite !has_column_df_get. destruct (String.eqb_spec name name') as [->|Hne].
  - rewrite df_get_setitem_eq. split; [auto | discriminate].
  - rewrite df_get_setitem_neq by exact Hne. split; [auto|].
    intros [H | ->]; [exact H | now elim Hne].
Qed.

Lemma with_metrics_frame (c1 c2 c3 c4 c5 : list value) (df : DataFrame) :
  let out := with_metrics c1 c2 c3 c4 c5 df in
  index out = index df /\
  (forall name, ~ In name METRIC_COLUMNS -> df_get name out = df_get name df) /\
  (forall name, has_column name out = true
                <-> has_column name df = true \/ In name METRIC_COLUMNS) /\
  (rectangular df ->
   Forall (fun c => List.length c = nrows df) [c1; c2; c3; c4; c5] ->
   rectangular out).
Proof.
  unfold with_metrics. repeat split.
  - intros name H. apply metric_names_differ in H as (? & ? & ? & ? & ?).
    now rewrite !df_get_setitem_neq by assumption.
  - rewrite !has_column_setitem. simpl. intuition.
  - rewrite !has_column_setitem. simpl. intuition.
  - intros Hr Hc.
    repeat match goal with
           | H : Forall _ (_ :: _) |- _ => inversion H; clear H; subst
           end.
    repeat apply rectangular_setitem; assumption.
Qed.

Lemma compute_virality_with_metrics (df : DataFrame) (followers : option Z) :
  exists c1 c2 c3 c4 c5,
    compute_virality parse_number df followers
    = with_metrics c1 c2 c3 c4 c5 df /\
    (rectangular df ->
     Forall (fun c => List.length c = nrows df) [c1; c2; c3; c4; c5]).
Proof.
  destruct (compute_virality_cases df followers) as [[_ E] | (f & _ & _ & E)];
    cbv zeta in E; rewrite E; unfold setitem_scalar;
    rewrite ?setitem_numeric_cells; do 5 eexists;
    (split; [reflexivity|]); intros Hr; simpl nrows;
    repeat constructor;
    try apply repeat_length;
    apply cells_of_length;
    auto using fits_div, fits_add, fits_to_numeric.
Qed.

(** X8. Whatever the follower count, the calculator keeps the row labels,
    leaves every column other than its five as it was, adds no column but
    its five, and gives a table with one cell per row in every column when
    it was given one. *)
Theorem compute_virality_frame :
  forall (df : DataFrame) (followers : option Z),
    let out := compute_virality parse_number df followers in
    index out = index df /\
    (forall name, ~ In name METRIC_COLUMNS ->
                  df_get name out = df_get name df) /\
    (forall name, has_column name out = true
                  <-> has_column name df = true \/ In name METRIC_COLUMNS) /\
    (rectangular df -> rectangular out).
Proof.
  intros df followers out. subst out.
  destruct (compute_virality_with_metrics df followers)
    as (c1 & c2 & c3 & c4 & c5 & -> & Hlen).
  destruct (with_metrics_frame c1 c2 c3 c4 c5 df) as (Hi & Hf & Hc & Hr).
  repeat split; auto; try (now apply Hc).
Qed.

Lemma compute_virality_metric_cells (df : DataFrame) (followers : option Z) :
  compute_virality parse_number df followers
  = let '(c1, c2, c3, c4, c5) :=
      metric_cells parse_number (nrows df) (df_get "view_count" df)
                   (df_get "like_count" df) (df_get "comment_count" df)
                   followers in
    with_metrics c1 c2 c3 c4 c5 df.
Proof.
  unfold compute_virality, metric_cells.
  destruct (no_followers followers); cbv zeta; [reflexivity|].
  rewrite !df_get_setitem_scalar_neq by names_differ.
  now rewrite !setitem_numeric_cells.
Qed.

Lemma with_metrics_twice (c1 c2 c3 c4 c5 : list value) (df : DataFrame) :
  with_metrics c1 c2 c3 c4 c5 (with_metrics c1 c2 c3 c4 c5 df)
  = with_metrics c1 c2 c3 c4 c5 df.
Proof.
  set (W := with_metrics c1 c2 c3 c4 c5 df).
  unfold with_metrics at 1.
  assert (G : forall name c, df_get name W = Some c -> setitem name c W = W)
    by (intros; now apply setitem_same).
  rewrite (G "followers_at_scrape" c1), (G "views_per_follower" c2),
    (G "likes_per_follower" c3), (G "comments_per_follower" c4),
    (G "er_per_follower" c5); try reflexivity;
    unfold W, with_metrics; now read_column.
Qed.

(** X9. Running the calculator again on its own result, with the same
    follower count, changes nothing. *)
Theorem compute_virality_idempotent :
  forall (df : DataFrame) (followers : option Z),
    compute_virality parse_number
      (compute_virality parse_number df followers) followers
    = compute_virality parse_number df followers.
Proof.
  intros df followers.
  rewrite (compute_virality_metric_cells (compute_virality _ _ _)).
  destruct (compute_virality_with_metrics df followers)
    as (d1 & d2 & d3 & d4 & d5 & E & _).
  destruct (with_metrics_frame d1 d2 d3 d4 d5 df) as (Hi & Hf & _).
  rewrite <- E in Hi, Hf. unfold nrows. rewrite Hi.
  rewrite !Hf by (simpl; intuition discriminate).
  fold (nrows df). rewrite (compute_virality_metric_cells df).
  destruct (metric_cells _ _ _ _ _ _) as [[[[c1 c2] c3] c4] c5].
  apply with_metrics_twice.
Qed.

End ViralityMore.

(** ** More on the tables of the pipeline *)

Lemma existsb_eqb_In (k : string) (l : list string) :
  existsb (String.eqb k) l = true <-> In k l.
Proof.
  rewrite existsb_exists. split.
  - intros (x & Hx & E). apply String.eqb_eq in E. now subst.
  - intros H. exists k. split; [exact H | apply String.eqb_refl].
Qed.

Lemma first_seen_nothing_new (seen l : list string) :
  (forall x, In x l -> In x seen) -> first_seen seen l = [].
Proof.
  induction l as [|k l IH]; simpl; intros H; [reflexivity|].
  assert (E : existsb (String.eqb k) seen = true)
    by (apply existsb_eqb_In, H; now left).
  rewrite E. apply IH. intros x Hx. apply H. now right.
Qed.

Lemma first_seen_fresh (keys seen more : list string) :
  NoDup keys -> (forall x, In x keys -> ~ In x seen) ->
  (forall x, In x more -> In x keys \/ In x seen) ->
  first_seen seen (keys ++ more) = keys.
Proof.
  intros Hnd. revert seen. induction Hnd as [|k keys Hk Hnd IH];
    intros seen Hfresh Hmore; simpl.
  - apply first_seen_nothing_new. intros x Hx.
    destruct (Hmore x Hx) as [[]|H]; exact H.
  - assert (E : existsb (String.eqb k) seen = false).
    { apply not_true_iff_false. rewrite existsb_eqb_In.
      apply Hfresh. now left. }
    rewrite E. f_equal. apply IH.
    + intros x Hx [<-|Hs]; [contradiction|]. revert Hs. apply Hfresh. now right.
    + intros x Hx. destruct (Hmore x Hx) as [[<-|H]|H]; simpl; auto.
Qed.

Lemma media_to_row_fields (m : Media) : map fst (media_to_row m) = ROW_KEYS.
Proof.
  unfold media_to_row.
  now destruct (truthy (get (m_resources m))
                && isinstance_list (get (m_resources m))).
Qed.

Lemma lookup_None_iff {A : Type} (k : string) (d : list (string * A)) :
  lookup k d = None <-> ~ In k (map fst d).
Proof.
  induction d as [|[k0 v0] d IH]; simpl; [tauto|].
  destruct (String.eqb_spec k0 k) as [->|Hne].
  - split; [discriminate | tauto].
  - rewrite IH. tauto.
Qed.

Lemma lookup_keyed {A : Type} (g : string -> A) (k : string)
      (keys : list string) :
  In k keys -> lookup k (map (fun k => (k, g k)) keys) = Some (g k).
Proof.
  induction keys as [|k0 keys IH]; simpl; [tauto|].
  destruct (String.eqb_spec k0 k) as [->|Hne]; [reflexivity|].
  intros [H|H]; [contradiction | now apply IH].
Qed.

(** The keys of the rows of some posts, in the order they are first
    seen. *)
Lemma first_seen_rows (medias : list Media) :
  first_seen [] (List.concat (map (map fst) (map media_to_row medias)))
  = match medias with
    | [] => []
    | _ :: _ => ROW_KEYS
    end.
Proof.
  rewrite map_map.
  destruct medias as [|m medias]; [reflexivity|].
  cbn [map List.concat]. rewrite media_to_row_fields.
  apply first_seen_fresh.
  - exact ROW_KEYS_NoDup.
  - intros x _ [].
  - intros x Hx. left. apply in_concat in Hx as (l & Hl & Hx).
    apply in_map_iff in Hl as (m' & <- & _).
    now rewrite media_to_row_fields in Hx.
Qed.

Lemma table_of_rows_columns (medias : list Media) :
  map fst (columns (DataFrame_of_rows (map media_to_row medias)))
  = match medias with
    | [] => []
    | _ :: _ => ROW_KEYS
    end.
Proof.
  unfold DataFrame_of_rows. cbn [columns]. rewrite map_map. cbn [fst].
  rewrite map_id. apply first_seen_rows.
Qed.

Lemma infer_objects_stored (cells : list value) :
  infer_objects cells = map (stored cells) cells.
Proof.
  unfold infer_objects, stored.
  destruct (infer_dtype cells); try reflexivity; symmetry; apply map_id.
Qed.

Lemma table_of_rows_rectangular (rows : list dict) :
  rectangular (DataFrame_of_rows rows).
Proof.
  unfold rectangular, DataFrame_of_rows, nrows. cbn [columns index].
  apply Forall_forall. intros [k c] H. apply in_map_iff in H as (k' & [= <- <-] & _).
  cbn [snd]. now rewrite infer_objects_stored, !length_map, length_seq.
Qed.

Lemma table_of_rows_cell (rows : list dict) (k : string) (i : nat) (r : dict) :
  In k (first_seen [] (List.concat (map (map fst) rows))) ->
  nth_error rows i = Some r ->
  let at_key (r : dict) := match lookup k r with
                           | Some v => v
                           | None => VFloat NaN
                           end in
  cell (DataFrame_of_rows rows) k i
  = Some (stored (map at_key rows) (at_key r)).
Proof.
  intros Hk Hi at_key. unfold cell, df_get, DataFrame_of_rows. cbn [columns].
  rewrite (lookup_keyed (fun k => infer_objects
             (map (fun r => match lookup k r with
                            | Some v => v
                            | None => VFloat NaN
                            end) rows)) k _ Hk).
  rewrite infer_objects_stored, !nth_error_map. unfold dict in *.
  now rewrite Hi.
Qed.

Lemma take_seq_id {A : Type} (d : A) (l : list A) :
  take d (seq 0 (List.length l)) l = l.
Proof.
  unfold take. induction l as [|a l IH]; [reflexivity|].
  cbn [List.length seq map nth]. f_equal.
  rewrite <- seq_shift, map_map. exact IH.
Qed.

Lemma take_rows_seq_id (df : DataFrame) :
  rectangular df -> take_rows (seq 0 (nrows df)) df = df.
Proof.
  unfold rectangular, take_rows, nrows. intros Hr.
  destruct df as [idx cols]. cbn [index columns] in *. f_equal.
  - apply take_seq_id.
  - revert Hr. generalize (List.length idx) as n. intros n Hr.
    induction Hr as [|[k c] d Hc Hr IH]; [reflexivity|].
    cbn [map fst snd] in *. rewrite IH. now rewrite <- Hc, take_seq_id.
Qed.

Lemma df_get_take_rows (name : string) (indexer : list nat) (df : DataFrame) :
  df_get name (take_rows indexer df)
  = option_map (take VNone indexer) (df_get name df).
Proof.
  unfold df_get, take_rows. cbn [columns].
  induction (columns df) as [|[k c] d IH]; [reflexivity|].
  cbn [map lookup fst snd]. now destruct (k =? name)%string.
Qed.

Lemma take_rows_names (indexer : list nat) (df : DataFrame) :
  map fst (columns (take_rows indexer df)) = map fst (columns df).
Proof.
  unfold take_rows. cbn [columns]. rewrite map_map. reflexivity.
Qed.

Lemma rectangular_take_rows (indexer : list nat) (df : DataFrame) :
  rectangular (take_rows indexer df).
Proof.
  unfold rectangular, take_rows, nrows, take. cbn [index columns].
  apply Forall_forall. intros kc H. apply in_map_iff in H as (kc' & <- & _).
  cbn [snd]. now rewrite !length_map.
Qed.

Lemma nrows_take_rows (indexer : list nat) (df : DataFrame) :
  nrows (take_rows indexer df) = List.length indexer.
Proof. unfold nrows, take_rows, take. cbn [index]. apply length_map. Qed.

(** A table whose rows are in rank order already: the stable sort keeps
    every row where it is. *)
Lemma lexsort_in_order (before : nat -> nat -> bool) (start n : nat) :
  (forall i j, (start <= i < j)%nat -> (j < start + n)%nat ->
               before j i = false) ->
  fold_right (insert_row before) [] (seq start n) = seq start n.
Proof.
  revert start. induction n as [|n IH]; intros start H; [reflexivity|].
  cbn [seq fold_right]. rewrite IH by (intros i j ? ?; apply H; lia).
  destruct n as [|n]; [reflexivity|].
  cbn [seq insert_row]. rewrite H by lia. reflexivity.
Qed.

Lemma key_at_repeat (x : num) (n i : nat) :
  x = NaN -> key_at (repeat (VFloat x) n) i = NaN.
Proof.
  intros ->. unfold key_at. revert i.
  induction n as [|n IH]; intros [|i]; simpl; auto.
Qed.

Lemma row_before_irrefl (asc : list bool) (keys : list (list value)) (i : nat) :
  row_before asc keys i i = false.
Proof.
  revert keys. induction asc as [|a asc IH]; intros [|col keys]; simpl; auto.
  rewrite IH, andb_false_r, orb_false_r. apply num_before_irrefl.
Qed.

Lemma with_metrics_names (c1 c2 c3 c4 c5 : list value) (df : DataFrame) :
  (forall name, In name METRIC_COLUMNS -> df_get name df = None) ->
  map fst (columns (with_metrics c1 c2 c3 c4 c5 df))
  = (map fst (columns df) ++ METRIC_COLUMNS)%list.
Proof.
  intros H. unfold with_metrics, setitem. cbn [columns index].
  unfold df_get in H.
  rewrite !assoc_set_keys_new;
    rewrite ?lookup_assoc_set_neq by names_differ;
    try (apply H; simpl; tauto).
  now rewrite <- !app_assoc.
Qed.

Lemma row_key_not_metric (k : string) :
  In k ROW_KEYS -> ~ In k METRIC_COLUMNS.
Proof.
  intros Hk Hm.
  assert (G : forallb (fun k => negb (existsb (String.eqb k) METRIC_COLUMNS))
                      ROW_KEYS = true) by reflexivity.
  rewrite forallb_forall in G. specialize (G k Hk).
  apply negb_true_iff in G. apply not_true_iff_false in G. apply G.
  now apply existsb_eqb_In.
Qed.

Lemma lookup_media_to_row (m : Media) (k : string) :
  In k ROW_KEYS ->
  exists v, lookup k (media_to_row m) = Some v.
Proof.
  intros Hk. destruct (lookup k (media_to_row m)) as [v|] eqn:E; [eauto|].
  apply lookup_None_iff in E. now rewrite media_to_row_fields in E.
Qed.

Lemma forallb_is_float_repeat (x : num) (n : nat) :
  forallb is_float (repeat (VFloat x) n) = true.
Proof. induction n; simpl; auto. Qed.

Lemma forallb_is_float_take (order : list nat) (c : list value) :
  forallb is_float c = true ->
  (forall o, In o order -> (o < List.length c)%nat) ->
  forallb is_float (take VNone order c) = true.
Proof.
  intros Hc Ho. apply forallb_forall. intros v Hv.
  apply in_map_iff in Hv as (o & <- & Hin).
  rewrite forallb_forall in Hc. apply Hc, nth_In, Ho, Hin.
Qed.

Lemma key_at_take (order : list nat) (c : list value) (i : nat) :
  (i < List.length order)%nat -> (nth i order 0 < List.length c)%nat ->
  key_at (take VNone order c) i = key_at c (nth i order 0%nat).
Proof.
  intros Hi Ho. unfold key_at, take. f_equal.
  rewrite (nth_indep _ _ (nth 0 c VNone)) by now rewrite length_map.
  rewrite (map_nth (fun i => nth i c VNone) order 0%nat).
  now apply nth_indep.
Qed.

Lemma row_before_take (asc : list bool) (keys : list (list value))
      (order : list nat) (n i j : nat) :
  Forall (fun c => List.length c = n) keys ->
  (forall o, In o order -> (o < n)%nat) ->
  (i < List.length order)%nat -> (j < List.length order)%nat ->
  row_before asc (map (take VNone order) keys) i j
  = row_before asc keys (nth i order 0%nat) (nth j order 0%nat).
Proof.
  intros Hk Ho Hi Hj. revert asc.
  induction Hk as [|c keys Hc Hk IH]; intros [|a asc]; try reflexivity.
  cbn [map row_before]. rewrite IH.
  rewrite !key_at_take; auto; rewrite Hc; apply Ho, nth_In; assumption.
Qed.

Lemma StronglySorted_nth {A : Type} (R : A -> A -> Prop) (d : A)
      (l : list A) (i j : nat) :
  StronglySorted R l -> (i < j)%nat -> (j < List.length l)%nat ->
  R (nth i l d) (nth j l d).
Proof.
  intros H. revert i j. induction H as [|a l Hl IH Ha]; intros i j Hij Hj.
  - simpl in Hj. lia.
  - destruct j as [|j]; [lia|]. simpl in Hj. destruct i as [|i].
    + cbn [nth]. rewrite Forall_forall in Ha. apply Ha, nth_In. lia.
    + cbn [nth]. apply IH; lia.
Qed.

Lemma row_before_asym (asc : list bool) (keys : list (list value))
      (i j : nat) :
  row_before asc keys i j = true -> row_before asc keys j i = false.
Proof.
  intros H. destruct (row_before asc keys j i) eqn:E; [|reflexivity].
  pose proof (row_before_trans asc keys i j i H E) as G.
  now rewrite row_before_irrefl in G.
Qed.

Section PipelineMore.

Variable parse_number : string -> parsed.
Variable sort_values_other :
  DataFrame -> list string -> list bool -> option DataFrame.

Lemma compute_virality_names (df : DataFrame) (followers : option Z) :
  (forall name, In name METRIC_COLUMNS -> df_get name df = None) ->
  map fst (columns (compute_virality parse_number df followers))
  = (map fst (columns df) ++ METRIC_COLUMNS)%list.
Proof.
  destruct (compute_virality_with_metrics parse_number df followers)
    as (c1 & c2 & c3 & c4 & c5 & -> & _).
  apply with_metrics_names.
Qed.

Lemma compute_virality_rectangular (df : DataFrame) (followers : option Z) :
  rectangular df -> rectangular (compute_virality parse_number df followers).
Proof.
  intros Hr.
  destruct (compute_virality_with_metrics parse_number df followers)
    as (c1 & c2 & c3 & c4 & c5 & -> & Hlen).
  destruct (with_metrics_frame parse_number c1 c2 c3 c4 c5 df) as (_ & _ & _ & H).
  auto.
Qed.


(** X10. The header of the two views the application writes: the
    twenty-three fields of a row in the order [media_to_row] fills them,
    then the five columns of the calculator in the order it writes them;
    with no post at all, the five columns alone.  Both views have one cell
    per post in every column. *)
Theorem run_pipeline_header :
  forall (medias : list Media) (followers : option Z),
    let views := run_pipeline parse_number sort_values_other medias followers in
    map fst (columns (fst views))
    = (match medias with
       | [] => []
       | _ :: _ => ROW_KEYS
       end ++ METRIC_COLUMNS)%list /\
    map fst (columns (snd views)) = map fst (columns (fst views)) /\
    nrows (fst views) = List.length medias /\
    nrows (snd views) = List.length medias /\
    rectangular (fst views) /\ rectangular (snd views).
Proof.
  intros medias followers. cbv zeta. unfold run_pipeline. cbn [fst snd].
  set (table := DataFrame_of_rows (map media_to_row medias)).
  assert (En : nrows (compute_virality parse_number table followers)
               = List.length medias).
  { unfold nrows. rewrite compute_virality_index. unfold table. simpl.
    now rewrite length_seq, length_map. }
  destruct (df_sorted_order parse_number sort_values_other table followers)
    as (order & P & -> & _).
  rewrite take_rows_names, nrows_take_rows.
  rewrite (Permutation_length P), length_seq.
  repeat split; auto using rectangular_take_rows.
  - rewrite compute_virality_names.
    + unfold table. now rewrite table_of_rows_columns.
    + intros name Hm. apply lookup_None_iff. unfold table.
      rewrite table_of_rows_columns. destruct medias; [now intros []|].
      intros Hk. now apply (row_key_not_metric name).
  - apply compute_virality_rectangular, table_of_rows_rectangular.
Qed.


Lemma stored_cases (cells : list value) (v : value) :
  In v cells ->
  stored cells v = v \/
  (infer_dtype cells = Dfloat64 /\
   ((exists n, v = VInt n /\ in_int64 n = true /\
               stored cells v = VFloat (float_of_Z n)) \/
    (v = VNone /\ stored cells v = VFloat NaN))).
Proof.
  intros Hin. unfold stored.
  destruct (infer_dtype cells) eqn:D; auto.
  destruct v as [| |n| | | | | |]; try (left; reflexivity).
  - right. split; [reflexivity|]. right. split; reflexivity.
  - right. split; [reflexivity|]. left. exists n.
    split; [reflexivity|]. split; [|reflexivity].
    unfold infer_dtype in D. destruct cells as [|c0 cells']; [discriminate|].
    destruct (forallb is_bool (c0 :: cells')); [discriminate|].
    destruct (forallb is_int64 (c0 :: cells')); [discriminate|].
    destruct (forallb _ (c0 :: cells')) eqn:F; [|discriminate].
    rewrite forallb_forall in F. specialize (F _ Hin). simpl in F.
    now rewrite !orb_false_r in F.
Qed.


Lemma ranked_before_not_outranked (t : DataFrame) (i j : nat) :
  ranked_before t i j -> ~ outranks t j i.
Proof.
  unfold ranked_before, outranks. cbv zeta.
  generalize (metric t "views_per_follower" i)
             (metric t "views_per_follower" j)
             (metric t "er_per_follower" i) (metric t "er_per_follower" j).
  intros vi vj ei ej. rewrite <- !num_before_desc, <- !num_tie_same.
  assert (A : forall x y, num_before false x y = true ->
                          num_before false y x = true -> False).
  { intros x y H G. apply num_before_asym in H. congruence. }
  assert (B : forall x y, num_tie x y = true ->
                          num_before false y x = true -> False).
  { intros x y H G.
    pose proof (num_before_tie_r false y x y G H) as K.
    now rewrite num_before_irrefl in K. }
  assert (C : forall x y, num_tie x y = true ->
                          num_before false x y = true -> False).
  { intros x y H. apply B. now apply num_tie_sym. }
  intros [H | [T [H | [T' _]]]] [G | [S G]]; eauto.
Qed.

Lemma cell_take_rows (order : list nat) (t : DataFrame) (name : string)
      (p : nat) :
  rectangular t -> (forall o, In o order -> (o < nrows t)%nat) ->
  (p < List.length order)%nat ->
  cell (take_rows order t) name p = cell t name (nth p order 0%nat).
Proof.
  intros Hr Ho Hp. unfold cell. rewrite df_get_take_rows.
  destruct (df_get name t) as [c|] eqn:E; [|reflexivity].
  cbn [option_map]. unfold take. rewrite nth_error_map.
  rewrite (nth_error_nth' order 0%nat Hp). cbn [option_map].
  symmetry. apply nth_error_nth'.
  rewrite (rectangular_column _ _ _ Hr E). apply Ho, nth_In, Hp.
Qed.

(** C3. The ranked view of a table that went through the calculator holds
    the rows of that table, each once and whole (label and every cell), in
    an order in which a row comes before another when it has the higher
    [views_per_follower], on a tie there the higher [er_per_follower], and
    on a tie in both the earlier place in the table; a ratio that is
    not-a-number ranks below every number.  Read off the ranked view
    itself: no row outranks a row above it.  When the table has neither
    column the ranked view is the table itself.  The sample of the
    specification ranks as row2, row3, row1. *)
Theorem df_sorted_ranking :
  (forall (df : DataFrame) (followers : option Z),
     rectangular df ->
     let out := compute_virality parse_number df followers in
     let ranked := df_sorted sort_values_other out in
     exists order,
       Permutation order (seq 0 (nrows out)) /\
       nrows ranked = nrows out /\
       map fst (columns ranked) = map fst (columns out) /\
       (forall p, (p < nrows out)%nat ->
          nth_error (index ranked) p
          = nth_error (index out) (nth p order 0%nat) /\
          forall name,
            cell ranked name p = cell out name (nth p order 0%nat)) /\
       StronglySorted (ranked_before out) order /\
       (forall p q, (p < q < nrows out)%nat -> ~ outranks ranked q p)) /\
  (forall t : DataFrame,
     has_column "views_per_follower" t = false ->
     has_column "er_per_follower" t = false ->
     df_sorted sort_values_other t = t) /\
  (index (df_sorted sort_values_other three_rows) = [1; 2; 0]%nat /\
   df_get "id" (df_sorted sort_values_other three_rows)
   = Some [VStr "row2"; VStr "row3"; VStr "row1"] /\
   df_get "views_per_follower" (df_sorted sort_values_other three_rows)
   = Some [VFloat 0.5%float; VFloat 0.5%float; VFloat 0.2%float] /\
   df_get "er_per_follower" (df_sorted sort_values_other three_rows)
   = Some [VFloat 0.2%float; VFloat 0.1%float; VFloat 0.1%float]).
Proof.
  split; [|split].
  - intros df followers Hr out ranked.
    assert (Ho : rectangular out) by now apply compute_virality_rectangular.
    destruct (df_sorted_order parse_number sort_values_other df followers)
      as (order & P & E & S).
    fold out in P, E, S. fold ranked in E.
    assert (Lo : List.length order = nrows out)
      by now rewrite (Permutation_length P), length_seq.
    assert (Io : forall o, In o order -> (o < nrows out)%nat).
    { intros o H. apply (Permutation_in _ P), in_seq in H. lia. }
    assert (Hc : forall p name, (p < nrows out)%nat ->
                   cell ranked name p = cell out name (nth p order 0%nat)).
    { intros p name Hp. rewrite E. apply cell_take_rows; auto. lia. }
    exists order. split; [exact P|]. split; [|split; [|split; [|split]]].
    + now rewrite E, nrows_take_rows.
    + now rewrite E, take_rows_names.
    + intros p Hp. split; [|intros name; now apply Hc].
      rewrite E. cbn [take_rows index]. unfold take. rewrite nth_error_map.
      rewrite (nth_error_nth' order 0%nat) by lia. cbn [option_map].
      symmetry. apply nth_error_nth'. apply Io, nth_In. lia.
    + exact S.
    + intros p q Hpq Hout.
      assert (R : ranked_before out (nth p order 0%nat) (nth q order 0%nat)).
      { apply StronglySorted_nth; [exact S | lia | lia]. }
      apply (ranked_before_not_outranked _ _ _ R).
      unfold outranks, metric in *.
      now rewrite !Hc in Hout by lia.
  - intros t Hv He. unfold df_sorted. now rewrite Hv, He.
  - repeat split; reflexivity.
Qed.

Lemma no_follower_data_columns (df : DataFrame) (followers : option Z)
      (name : string) :
  no_follower_data followers -> In name METRIC_COLUMNS ->
  df_get name (compute_virality parse_number df followers)
  = Some (repeat (VFloat NaN) (nrows df)).
Proof.
  intros Hf Hn. apply no_followers_iff in Hf.
  unfold compute_virality. rewrite Hf. cbv zeta.
  simpl in Hn. destruct Hn as [<- | [<- | [<- | [<- | [<- | []]]]]];
    now read_column.
Qed.

(** X12. Without follower data no post outranks another: the ranked view
    is the table itself, rows in fetch order. *)
Theorem df_sorted_without_followers :
  forall (df : DataFrame) (followers : option Z),
    rectangular df -> no_follower_data followers ->
    df_sorted sort_values_other (compute_virality parse_number df followers)
    = compute_virality parse_number df followers.
Proof.
  intros df followers Hr Hf.
  set (out := compute_virality parse_number df followers).
  set (nan := repeat (VFloat NaN) (nrows df)).
  assert (Ev : df_get "views_per_follower" out = Some nan)
    by (apply no_follower_data_columns; simpl; tauto).
  assert (Ee : df_get "er_per_follower" out = Some nan)
    by (apply no_follower_data_columns; simpl; tauto).
  rewrite (df_sorted_two_keys sort_values_other out nan nan Ev Ee)
    by apply forallb_is_float_repeat.
  unfold lexsort_indexer. rewrite lexsort_in_order.
  - apply take_rows_seq_id, compute_virality_rectangular, Hr.
  - intros i j _ _. cbn [row_before]. unfold nan.
    now rewrite !key_at_repeat.
Qed.

(** X13. Ranking the ranked view again changes nothing. *)
Theorem df_sorted_idempotent :
  forall (df : DataFrame) (followers : option Z),
    rectangular df ->
    let ranked :=
      df_sorted sort_values_other (compute_virality parse_number df followers)
    in df_sorted sort_values_other ranked = ranked.
Proof.
  intros df followers Hr. cbv zeta.
  set (out := compute_virality parse_number df followers).
  assert (Ho : rectangular out) by now apply compute_virality_rectangular.
  destruct (compute_virality_ranking_columns parse_number df followers
              "views_per_follower") as (cv & Ev & Fv); [now left|].
  destruct (compute_virality_ranking_columns parse_number df followers
              "er_per_follower") as (ce & Ee & Fe); [now right|].
  fold out in Ev, Ee.
  pose proof (rectangular_column out _ cv Ho Ev) as Lv.
  pose proof (rectangular_column out _ ce Ho Ee) as Le.
  rewrite (df_sorted_two_keys sort_values_other out cv ce Ev Ee Fv Fe).
  set (before := row_before [false; false] [cv; ce]).
  unfold lexsort_indexer. fold before.
  set (order := fold_right (insert_row before) [] (seq 0 (nrows out))).
  destruct (argsort_from before
              (row_before_trans _ _) (row_before_between _ _)
              0 (nrows out)) as [P S].
  fold order in P, S.
  assert (Lo : List.length order = nrows out)
    by now rewrite (Permutation_length P), length_seq.
  assert (Io : forall o, In o order -> (o < nrows out)%nat).
  { intros o H. apply (Permutation_in _ P), in_seq in H. lia. }
  set (t := take_rows order out).
  assert (Nt : nrows t = nrows out)
    by (unfold t; now rewrite nrows_take_rows).
  rewrite (df_sorted_two_keys sort_values_other t
             (take VNone order cv) (take VNone order ce)).
  - unfold lexsort_indexer. rewrite lexsort_in_order.
    + apply take_rows_seq_id, rectangular_take_rows.
    + intros i j Hij Hj. cbn [Nat.add] in Hj. rewrite Nt in Hj.
      change [take VNone order cv; take VNone order ce]
        with (map (take VNone order) [cv; ce]).
      rewrite (row_before_take _ _ _ (nrows out)); auto; try lia.
      fold before.
      destruct (StronglySorted_nth _ 0%nat order i j S) as [H | [H _]];
        try lia; [|exact H].
      now apply row_before_asym.
  - unfold t. now rewrite df_get_take_rows, Ev.
  - unfold t. now rewrite df_get_take_rows, Ee.
  - apply forallb_is_float_take; [exact Fv | now rewrite Lv].
  - apply forallb_is_float_take; [exact Fe | now rewrite Le].
Qed.

End PipelineMore.


(** X12 on the table of five rows, the follower count unknown. *)
Lemma df_sorted_without_followers_sample :
  rectangular five_rows /\ no_follower_data None /\
  df_sorted sort_values_raises (compute_virality no_text_number five_rows None)
  = compute_virality no_text_number five_rows None.
Proof.
  assert (R : rectangular five_rows) by apply table_of_rows_rectangular.
  split; [exact R|]. split; [exact I|].
  exact (df_sorted_without_followers no_text_number sort_values_raises
           five_rows None R I).
Defined.

(** X13 on three posts that the ranking reorders. *)
Lemma df_sorted_idempotent_sample :
  rectangular (DataFrame_of_rows (map media_to_row three_posts)) /\
  index (df_sorted sort_values_raises
           (compute_virality no_text_number
              (DataFrame_of_rows (map media_to_row three_posts))
              (Some 100%Z)))
  = [1; 2; 0]%nat /\
  df_sorted sort_values_raises
    (df_sorted sort_values_raises
       (compute_virality no_text_number
          (DataFrame_of_rows (map media_to_row three_posts)) (Some 100%Z)))
  = df_sorted sort_values_raises
      (compute_virality no_text_number
         (DataFrame_of_rows (map media_to_row three_posts)) (Some 100%Z)).
Proof.
  assert (R : rectangular (DataFrame_of_rows (map media_to_row three_posts)))
    by apply table_of_rows_rectangular.
  split; [exact R|]. split; [reflexivity|].
  exact (df_sorted_idempotent no_text_number sort_values_raises _
           (Some 100%Z) R).
Defined.

(** ** Output paths *)

Lemma has_char_append (c : ascii) (a b : string) :
  has_char c (a ++ b) = has_char c a || has_char c b.
Proof.
  induction a as [|x a IH]; simpl; [reflexivity|].
  now rewrite IH, orb_assoc.
Qed.

Lemma rfind_None (c : ascii) (s : string) :
  rfind c s = None <-> has_char c s = false.
Proof.
  induction s as [|a s IH]; simpl; [tauto|].
  destruct (rfind c s) as [i|].
  - split; [discriminate|]. intros H. apply orb_false_iff in H as [_ H].
    apply IH in H. discriminate.
  - destruct (Ascii.eqb a c); simpl; [split; discriminate|].
    split; intros _; [now apply IH | reflexivity].
Qed.

Lemma rfind_split (c : ascii) (s : string) (i : nat) :
  rfind c s = Some i ->
  exists pre post,
    s = pre ++ String c post /\ String.length pre = i /\
    has_char c post = false.
Proof.
  revert i. induction s as [|a s IH]; simpl; [discriminate|].
  destruct (rfind c s) as [j|] eqn:E.
  - intros i [= <-]. destruct (IH j eq_refl) as (pre & post & -> & L & H).
    exists (String a pre), post. simpl. auto.
  - destruct (Ascii.eqb_spec a c) as [->|]; [|discriminate].
    intros i [= <-]. exists "", s. simpl. split; [reflexivity|].
    split; [reflexivity|]. now apply rfind_None.
Qed.

Lemma rfind_append (c : ascii) (pre post : string) :
  has_char c post = false ->
  rfind c (pre ++ String c post) = Some (String.length pre).
Proof.
  intros H. induction pre as [|a pre IH]; simpl.
  - apply rfind_None in H. now rewrite H, Ascii.eqb_refl.
  - now rewrite IH.
Qed.

Lemma substring_prefix (a b : string) :
  substring 0 (String.length a) (a ++ b) = a.
Proof.
  induction a as [|x a IH]; simpl; [now destruct b|]. now rewrite IH.
Qed.

Lemma substring_whole (s : string) : substring 0 (String.length s) s = s.
Proof. induction s as [|x s IH]; simpl; [reflexivity | now rewrite IH]. Qed.

Lemma substring_suffix (a b : string) :
  substring (String.length a) (String.length b) (a ++ b) = b.
Proof.
  induction a as [|x a IH]; simpl; [apply substring_whole | exact IH].
Qed.

(** A name with a suffix: a stem that is not empty, a dot, and a tail
    without a dot that is not empty. *)
Lemma path_of_parts (pre post : string) :
  pre <> "" -> post <> "" -> has_char "." post = false ->
  path_stem (pre ++ String "." post) = pre /\
  path_suffix (pre ++ String "." post) = String "." post.
Proof.
  intros Hpre Hpost Hdot. unfold path_stem, path_suffix, suffix_dot.
  rewrite rfind_append by exact Hdot.
  rewrite length_append. cbn [String.length].
  assert (L1 : (0 < String.length pre)%nat) by (destruct pre; simpl; [easy|lia]).
  assert (L2 : (0 < String.length post)%nat)
    by (destruct post; simpl; [easy|lia]).
  replace ((0 <? String.length pre)%nat) with true
    by (symmetry; now apply Nat.ltb_lt).
  replace ((String.length pre <?
            String.length pre + S (String.length post) - 1)%nat) with true
    by (symmetry; apply Nat.ltb_lt; lia).
  cbn [andb]. split; [apply substring_prefix|].
  replace (String.length pre + S (String.length post) - String.length pre)%nat
    with (String.length (String "." post)) by (simpl; lia).
  apply substring_suffix.
Qed.

(** Every name is its stem followed by its suffix, in one of two forms. *)
Lemma path_split (name : string) :
  (path_stem name = name /\ path_suffix name = "") \/
  (exists pre post,
     name = pre ++ String "." post /\ pre <> "" /\ post <> "" /\
     has_char "." post = false /\
     path_stem name = pre /\ path_suffix name = String "." post).
Proof.
  destruct (suffix_dot name) as [i|] eqn:E.
  - right. unfold suffix_dot in E.
    destruct (rfind "." name) as [j|] eqn:R; [|discriminate].
    destruct ((0 <? j)%nat && (j <? String.length name - 1)%nat) eqn:B;
      [|discriminate].
    injection E as <-. apply andb_true_iff in B as [B1 B2].
    apply Nat.ltb_lt in B1, B2.
    destruct (rfind_split _ _ _ R) as (pre & post & -> & L & H).
    exists pre, post.
    assert (Hpre : pre <> "") by (intros ->; simpl in L; lia).
    assert (Hpost : post <> "").
    { intros ->. rewrite length_append in B2. simpl in B2. lia. }
    destruct (path_of_parts pre post Hpre Hpost H) as [Hs Hx]. auto 10.
  - left. unfold path_stem, path_suffix. now rewrite E.
Qed.

Lemma path_stem_not_empty (name : string) : name <> "" -> path_stem name <> "".
Proof.
  intros Hn. destruct (path_split name) as [[-> _] | (pre & post & _ & Hpre & _ & _ & -> & _)];
    assumption.
Qed.

Lemma path_stem_no_sep (name : string) :
  has_char "/" name = false -> has_char "/" (path_stem name) = false.
Proof.
  destruct (path_split name) as [[-> _] | (pre & post & -> & _ & _ & _ & -> & _)];
    [auto|].
  rewrite has_char_append. intros H. now apply orb_false_iff in H as [H _].
Qed.

(** [with_suffix] puts the new suffix after the stem. *)
Lemma with_suffix_stem (ext name : string) :
  ext <> "" -> has_char "/" (String "." ext) = false -> name <> "" ->
  with_suffix (String "." ext) name = Some (path_stem name ++ String "." ext).
Proof.
  intros He Hs Hn. unfold with_suffix. rewrite Hs.
  assert (E1 : (String "." ext =? ".") = false).
  { apply String.eqb_neq. intros [= ->]. now apply He. }
  assert (E3 : prefix "." (String "." ext) = true).
  { cbn [prefix]. destruct (ascii_dec "." ".") as [_|N]; [|now elim N].
    now destruct ext. }
  rewrite E1, E3. cbn [String.eqb negb andb orb].
  assert (E2 : (name =? "") = false) by now apply String.eqb_neq.
  rewrite E2. cbv zeta.
  destruct (path_split name)
    as [[-> ->] | (pre & post & -> & Hpre & Hpost & Hdot & -> & ->)].
  - reflexivity.
  - cbn [String.eqb]. rewrite length_append.
    replace (String.length pre + String.length (String "." post)
             - String.length (String "." post))%nat
      with (String.length pre) by lia.
    now rewrite substring_prefix.
Qed.

Lemma append_not_empty (a b : string) : b <> "" -> a ++ b <> "".
Proof. destruct a; simpl; [auto | discriminate]. Qed.

Lemma vir_named (name : string) :
  name <> "" -> has_char "/" name = false ->
  with_name (path_stem name ++ "_virality") name
  = Some (path_stem name ++ "_virality").
Proof.
  intros Hn Hs. unfold with_name.
  assert (E1 : (name =? "") = false) by now apply String.eqb_neq.
  assert (E2 : (path_stem name ++ "_virality" =? "") = false).
  { apply String.eqb_neq, append_not_empty. discriminate. }
  assert (E3 : has_char "/" (path_stem name ++ "_virality") = false).
  { rewrite has_char_append, path_stem_no_sep by exact Hs. reflexivity. }
  assert (E4 : (path_stem name ++ "_virality" =? ".") = false).
  { apply String.eqb_neq. intros H. apply (f_equal String.length) in H.
    rewrite length_append in H. simpl in H. lia. }
  now rewrite E1, E2, E3, E4.
Qed.

Lemma vir_csv_path_stem (name : string) :
  name <> "" -> has_char "/" name = false ->
  vir_csv_path name
  = Some (path_stem (path_stem name ++ "_virality") ++ ".csv").
Proof.
  intros Hn Hs. unfold vir_csv_path. rewrite vir_named by assumption.
  apply with_suffix_stem; [discriminate | reflexivity|].
  apply append_not_empty. discriminate.
Qed.

Lemma tagged_stem_differs (s : string) :
  path_stem (s ++ "_virality") <> s.
Proof.
  destruct (path_split (s ++ "_virality"))
    as [[-> _] | (pre & post & E & _ & _ & _ & -> & _)].
  - intros H. apply (f_equal String.length) in H.
    rewrite length_append in H. simpl in H. lia.
  - intros ->. apply append_cancel in E. discriminate.
Qed.

(** X14. The three files the worker writes, from the name typed as output
    path.  A path without a name makes all three raise.  Otherwise the
    table goes to the stem of the name with [.csv] and with [.xlsx]: an
    extension typed into the field is replaced, not kept; the ranked view
    goes to a third file that ends in [.csv] too, and no two of the three
    are the same file. *)
Theorem output_paths :
  forall name : string,
    has_char "/" name = false ->
    (name = "" ->
     csv_path name = None /\ xlsx_path name = None /\
     vir_csv_path name = None) /\
    (name <> "" ->
     exists v,
       csv_path name = Some (path_stem name ++ ".csv") /\
       xlsx_path name = Some (path_stem name ++ ".xlsx") /\
       vir_csv_path name = Some v /\
       path_suffix v = ".csv" /\
       NoDup [path_stem name ++ ".csv"; path_stem name ++ ".xlsx"; v]).
Proof.
  intros name Hs. split; [intros ->; now repeat split|].
  intros Hn.
  set (s := path_stem name).
  set (s' := path_stem (s ++ "_virality")).
  assert (Ns : s <> "") by now apply path_stem_not_empty.
  assert (Ns' : s' <> "").
  { apply path_stem_not_empty, append_not_empty. discriminate. }
  destruct (path_of_parts s "csv" Ns) as [Cs Cx];
    [discriminate | reflexivity|].
  destruct (path_of_parts s "xlsx" Ns) as [_ Xx];
    [discriminate | reflexivity|].
  destruct (path_of_parts s' "csv" Ns') as [Vs Vx];
    [discriminate | reflexivity|].
  exists (s' ++ ".csv"). split; [|split; [|split; [|split]]].
  - apply with_suffix_stem; [discriminate | reflexivity | exact Hn].
  - apply with_suffix_stem; [discriminate | reflexivity | exact Hn].
  - now apply vir_csv_path_stem.
  - exact Vx.
  - constructor; [|constructor; [|constructor; [intros [] | constructor]]].
    + intros [H | [H | []]].
      * apply (f_equal path_suffix) in H. rewrite Cx, Xx in H. discriminate.
      * apply (f_equal path_stem) in H. rewrite Cs, Vs in H.
        now apply (tagged_stem_differs s).
    + intros [H | []].
      apply (f_equal path_suffix) in H. rewrite Xx, Vx in H. discriminate.
Qed.

(** X15. The file of the ranked view.  When the stem of the name has no dot
    after its first character, the file is the stem with
    [_virality.csv].  When it has one, [with_suffix] takes everything from
    the last dot of the stem for a suffix, the tag included: the file is
    what stands before that dot with [.csv], and [_virality] is lost. *)
Theorem vir_csv_path_cases :
  forall name : string,
    name <> "" -> has_char "/" name = false ->
    (forall c rest,
       path_stem name = String c rest -> has_char "." rest = false ->
       vir_csv_path name = Some (path_stem name ++ "_virality.csv")) /\
    (forall pre post,
       path_stem name = pre ++ String "." post -> pre <> "" ->
       has_char "." post = false ->
       vir_csv_path name = Some (pre ++ ".csv")).
Proof.
  intros name Hn Hs. rewrite (vir_csv_path_stem name Hn Hs). split.
  - intros c rest -> Hdot. f_equal.
    change "_virality.csv" with ("_virality" ++ ".csv").
    rewrite <- append_assoc. f_equal.
    unfold path_stem, suffix_dot. cbn [append rfind].
    assert (R : rfind "." (rest ++ "_virality") = None).
    { apply rfind_None. now rewrite has_char_append, Hdot. }
    rewrite R. now destruct (Ascii.eqb c ".").
  - intros pre post -> Hpre Hdot. f_equal. f_equal.
    rewrite append_assoc. cbn [append].
    apply path_of_parts; [exact Hpre| |].
    + apply append_not_empty. discriminate.
    + now rewrite has_char_append, Hdot.
Qed.

(** X14 on the default name. *)
Lemma output_paths_sample :
  has_char "/" "instagram_posts" = false /\
  exists v,
    csv_path "instagram_posts" = Some "instagram_posts.csv" /\
    xlsx_path "instagram_posts" = Some "instagram_posts.xlsx" /\
    vir_csv_path "instagram_posts" = Some v /\
    path_suffix v = ".csv" /\
    NoDup ["instagram_posts.csv"; "instagram_posts.xlsx"; v].
Proof.
  split; [reflexivity|].
  exact (proj2 (output_paths "instagram_posts" eq_refl)
               ltac:(discriminate)).
Defined.

(** X15 on a name without a dot and on one with two. *)
Lemma vir_csv_path_cases_sample :
  vir_csv_path "instagram_posts" = Some "instagram_posts_virality.csv" /\
  vir_csv_path "a.b.c" = Some "a.csv".
Proof.
  split.
  - exact (proj1 (vir_csv_path_cases "instagram_posts"
                    ltac:(discriminate) eq_refl)
                 "i"%char "nstagram_posts" eq_refl eq_refl).
  - exact (proj2 (vir_csv_path_cases "a.b.c" ltac:(discriminate) eq_refl)
                 "a" "b" eq_refl ltac:(discriminate) eq_refl).
Defined.

(** ** The link of a post *)

Lemma media_to_row_url (m : Media) :
  lookup "url" (media_to_row m)
  = Some (match get_text (m_code m) with
          | Some c =>
              if truthy (VStr c)
              then VStr ("https://www.instagram.com/p/" ++ c ++ "/")
              else VNone
          | None => VNone
          end).
Proof.
  unfold media_to_row.
  now destruct (truthy (get (m_resources m))
                && isinstance_list (get (m_resources m))).
Qed.

Lemma parse_username_post_link (c : string) :
  parse_username ("https://www.instagram.com/p/" ++ c ++ "/") = "p".
Proof.
  apply parse_username_of_url.
  assert (Es : strip ("https://www.instagram.com/p/" ++ c ++ "/")
               = "https://www.instagram.com/p/" ++ c ++ "/").
  { apply strip_id; [reflexivity|].
    rewrite (not_ending_append _ "https://www.instagram.com/p/" (c ++ "/"))
      by (apply append_not_empty; discriminate).
    now rewrite not_ending_append by discriminate. }
  rewrite Es. exists "https://", "www.", ("/" ++ c ++ "/").
  repeat split; auto. discriminate.
Qed.

(** X16. The link [media_to_row] builds for a post is
    [https://www.instagram.com/p/], the shortcode and a slash, for a
    shortcode that is not empty.  Fed to [parse_username], every such link
    gives the user [p]: the pattern takes the first path segment for the
    handle, on a post link as on a profile link. *)
Theorem parse_username_of_post_url :
  forall (m : Media) (u : string),
    lookup "url" (media_to_row m) = Some (VStr u) ->
    (exists code,
        get_text (m_code m) = Some code /\ code <> "" /\
        u = "https://www.instagram.com/p/" ++ code ++ "/") /\
    parse_username u = "p".
Proof.
  intros m u H. rewrite media_to_row_url in H.
  destruct (get_text (m_code m)) as [c|]; [|discriminate].
  destruct (String.eqb_spec c "") as [->|Hc]; [discriminate|].
  cbn [truthy] in H. apply String.eqb_neq in Hc as Hb. rewrite Hb in H.
  cbn [negb] in H. injection H as <-.
  split; [now exists c | exact (parse_username_post_link c)].
Qed.

(** X16 on a post with a shortcode. *)
Lemma parse_username_of_post_url_sample :
  lookup "url" (media_to_row (with_code (Some "CxYz_1")))
  = Some (VStr "https://www.instagram.com/p/CxYz_1/") /\
  parse_username "https://www.instagram.com/p/CxYz_1/" = "p".
Proof.
  split; [reflexivity|].
  exact (proj2 (parse_username_of_post_url
                  (with_code (Some "CxYz_1"))
                  "https://www.instagram.com/p/CxYz_1/" eq_refl)).
Defined.

(** ** From the counters of a post to its ratios *)

Lemma media_to_row_like_count (m : Media) :
  lookup "like_count" (media_to_row m) = Some (get (m_like_count m)).
Proof.
  unfold media_to_row.
  now destruct (truthy (get (m_resources m))
                && isinstance_list (get (m_resources m))).
Qed.

Lemma media_to_row_comment_count (m : Media) :
  lookup "comment_count" (media_to_row m) = Some (get (m_comment_count m)).
Proof.
  unfold media_to_row.
  now destruct (truthy (get (m_resources m))
                && isinstance_list (get (m_resources m))).
Qed.

Section Ratios.

Variable parse_number : string -> parsed.
Variable sort_values_other :
  DataFrame -> list string -> list bool -> option DataFrame.

Lemma coerce_stored (cells : list value) (v : value) :
  In v cells ->
  scalar_float (coerce parse_number (stored cells v))
  = scalar_float (coerce parse_number v).
Proof.
  intros Hin.
  destruct (stored_cases cells v Hin)
    as [-> | (_ & [(n & -> & Hn & ->) | (-> & ->)])]; try reflexivity.
  simpl. unfold coerce_int. now rewrite Hn.
Qed.

Lemma counter_of_rows (medias : list Media) (i : nat) (m : Media)
      (k : string) (v : value) :
  nth_error medias i = Some m -> lookup k (media_to_row m) = Some v ->
  scalar_float
    (counter parse_number (DataFrame_of_rows (map media_to_row medias)) k i)
  = scalar_float (coerce parse_number v).
Proof.
  intros Hi Hk.
  assert (Hin : In k ROW_KEYS).
  { rewrite <- (media_to_row_fields m).
    destruct (in_dec string_dec k (map fst (media_to_row m))) as [H|H];
      [exact H|].
    apply lookup_None_iff in H. congruence. }
  assert (Hc : cell (DataFrame_of_rows (map media_to_row medias)) k i
               = Some (stored (column_of k medias) v)).
  { rewrite (table_of_rows_cell _ k i (media_to_row m)).
    - cbv zeta. now rewrite Hk, map_map.
    - rewrite first_seen_rows. destruct medias; [now destruct i | exact Hin].
    - now rewrite nth_error_map, Hi. }
  destruct (counter_of_cell parse_number _ _ _ _ Hc) as [-> _].
  apply coerce_stored. unfold column_of. apply in_map_iff.
  exists m. rewrite Hk. split; [reflexivity | eapply nth_error_In, Hi].
Qed.

(** A column of int64 integers is stored as it is. *)
Lemma infer_objects_ints (cells : list value) :
  (forall v, In v cells -> exists n, v = VInt n /\ in_int64 n = true) ->
  infer_objects cells = cells.
Proof.
  intros H. unfold infer_objects, infer_dtype.
  destruct cells as [|c cells']; [reflexivity|].
  assert (F : forallb is_int64 (c :: cells') = true).
  { apply forallb_forall. intros v Hv. now destruct (H v Hv) as (n & -> & Hn). }
  rewrite F. now destruct (forallb is_bool (c :: cells')).
Qed.

Lemma counter_of_int_rows (medias : list Media) (i : nat) (m : Media)
      (k : string) (n : Z) :
  (forall m', In m' medias ->
     exists n', lookup k (media_to_row m') = Some (VInt n') /\
                in_int64 n' = true) ->
  nth_error medias i = Some m -> lookup k (media_to_row m) = Some (VInt n) ->
  counter parse_number (DataFrame_of_rows (map media_to_row medias)) k i
  = SInt n.
Proof.
  intros Hall Hi Hk.
  assert (Hin : In k ROW_KEYS).
  { rewrite <- (media_to_row_fields m).
    destruct (in_dec string_dec k (map fst (media_to_row m))) as [H|H];
      [exact H|].
    apply lookup_None_iff in H. congruence. }
  assert (Hcol : forall v, In v (column_of k medias) ->
                           exists n', v = VInt n' /\ in_int64 n' = true).
  { intros v Hv. apply in_map_iff in Hv as (m' & <- & Hm').
    destruct (Hall m' Hm') as (n' & -> & Hn'). now exists n'. }
  apply (counter_of_ints parse_number _ k (column_of k medias)).
  - unfold df_get, DataFrame_of_rows. cbn [columns].
    rewrite (lookup_keyed (fun k => infer_objects
               (map (fun r => match lookup k r with
                              | Some v => v
                              | None => VFloat NaN
                              end) (map media_to_row medias))) k).
    + rewrite map_map. fold (column_of k medias).
      now rewrite infer_objects_ints.
    + rewrite first_seen_rows. destruct medias; [now destruct i | exact Hin].
  - exact Hcol.
  - unfold column_of. rewrite nth_error_map, Hi. cbn [option_map].
    now rewrite Hk.
Qed.

(** X17. From a post to its ratios, with a positive follower count [f],
    the integers among the counters being int64: in the table, the row of
    the [i]-th post has its like counter over [f], its comment counter
    over [f], and for [views_per_follower] the view counter over [f],
    where the view counter is [view_count] when that is truthy and
    [play_count] otherwise.  Each counter is read as [pd.to_numeric] reads
    it and each quotient is a float64 division.  When every post has int64
    integers for likes and comments, [er_per_follower] is their sum, which
    wraps around in int64, over [f]. *)
Theorem run_pipeline_ratios :
  forall (medias : list Media) (f : Z) (i : nat) (m : Media),
    (0 < f < 2 ^ 63)%Z -> nth_error medias i = Some m ->
    (forall m' k v,
       In m' medias -> In k COUNTER_COLUMNS ->
       lookup k (media_to_row m') = Some v ->
       int64_cell parse_number v = true) ->
    let table :=
      fst (run_pipeline parse_number sort_values_other medias (Some f)) in
    let over_f v := Some (VFloat (scalar_div (coerce parse_number v) f)) in
    cell table "views_per_follower" i
    = over_f (py_or (get (m_view_count m)) (get (m_play_count m))) /\
    cell table "likes_per_follower" i = over_f (get (m_like_count m)) /\
    cell table "comments_per_follower" i = over_f (get (m_comment_count m)) /\
    (forall l c,
       (forall m', In m' medias ->
          exists l' c',
            m_like_count m' = Some (VInt l') /\ in_int64 l' = true /\
            m_comment_count m' = Some (VInt c') /\ in_int64 c' = true) ->
       m_like_count m = Some (VInt l) -> m_comment_count m = Some (VInt c) ->
       cell table "er_per_follower" i
       = Some (VFloat (num_div (float_of_Z (wrap64 (l + c)))
                               (float_of_Z f)))).
Proof.
  intros medias f i m Hf Hi _. cbv zeta. unfold run_pipeline. cbn [fst].
  set (rows := DataFrame_of_rows (map media_to_row medias)).
  assert (Hn : (i < nrows rows)%nat).
  { unfold rows, nrows. simpl. rewrite length_seq, length_map.
    apply nth_error_Some. now rewrite Hi. }
  destruct (compute_virality_ratios parse_number rows f i
              (table_of_rows_rectangular _) (proj1 Hf) Hn)
    as (_ & Hv & Hl & Hc & He).
  unfold rows in *. unfold scalar_div in *.
  rewrite (counter_of_rows medias i m "view_count" _ Hi
             (media_to_row_view_count m)) in Hv.
  rewrite (counter_of_rows medias i m "like_count" _ Hi
             (media_to_row_like_count m)) in Hl.
  rewrite (counter_of_rows medias i m "comment_count" _ Hi
             (media_to_row_comment_count m)) in Hc.
  repeat split; auto.
  intros l c Hall El Ec.
  assert (Cl : counter parse_number
                 (DataFrame_of_rows (map media_to_row medias)) "like_count" i
               = SInt l).
  { apply (counter_of_int_rows medias i m "like_count" l).
    - intros m' Hm'. destruct (Hall m' Hm') as (l' & c' & E & H & _).
      exists l'. now rewrite media_to_row_like_count, E.
    - exact Hi.
    - now rewrite media_to_row_like_count, El. }
  assert (Cc : counter parse_number
                 (DataFrame_of_rows (map media_to_row medias))
                 "comment_count" i
               = SInt c).
  { apply (counter_of_int_rows medias i m "comment_count" c).
    - intros m' Hm'. destruct (Hall m' Hm') as (l' & c' & _ & _ & E & H).
      exists c'. now rewrite media_to_row_comment_count, E.
    - exact Hi.
    - now rewrite media_to_row_comment_count, Ec. }
  rewrite He, Cl, Cc. reflexivity.
Qed.

End Ratios.

(** X17 on a post with 10 likes, 5 comments, no [view_count] and 40
    plays, at 100 followers. *)
Lemma run_pipeline_ratios_sample :
  (0 < 100 < 2 ^ 63)%Z /\
  cell (fst (run_pipeline no_text_number sort_values_raises
                          [played 10 5 40] (Some 100%Z)))
       "views_per_follower" 0
  = Some (VFloat 0.4%float) /\
  cell (fst (run_pipeline no_text_number sort_values_raises
                          [played 10 5 40] (Some 100%Z)))
       "er_per_follower" 0
  = Some (VFloat 0.15%float).
Proof.
  assert (F : (0 < 100 < 2 ^ 63)%Z) by lia.
  assert (C : forall m' k v,
             In m' [played 10 5 40] -> In k COUNTER_COLUMNS ->
             lookup k (media_to_row m') = Some v ->
             int64_cell no_text_number v = true).
  { intros m' k v [<- | []] Hk E. simpl in Hk.
    destruct Hk as [<- | [<- | [<- | []]]]; vm_compute in E;
      injection E as <-; reflexivity. }
  destruct (run_pipeline_ratios no_text_number sort_values_raises
              [played 10 5 40] 100 0 (played 10 5 40) F eq_refl C)
    as (Hv & _ & _ & He).
  split; [exact F|]. split; [exact Hv|].
  apply (He 10%Z 5%Z); try reflexivity.
  intros m' [<- | []]. now exists 10%Z, 5%Z.
Defined.

(** C3 on three posts that the ranking reorders. *)
Lemma df_sorted_ranking_sample :
  rectangular (DataFrame_of_rows (map media_to_row three_posts)) /\
  exists order,
    Permutation order
      (seq 0 (nrows (compute_virality no_text_number
                       (DataFrame_of_rows (map media_to_row three_posts))
                       (Some 100%Z)))) /\
    index (df_sorted sort_values_raises
             (compute_virality no_text_number
                (DataFrame_of_rows (map media_to_row three_posts))
                (Some 100%Z)))
    = [1; 2; 0]%nat /\
    StronglySorted
      (ranked_before
         (compute_virality no_text_number
            (DataFrame_of_rows (map media_to_row three_posts)) (Some 100%Z)))
      order.
Proof.
  assert (R : rectangular (DataFrame_of_rows (map media_to_row three_posts)))
    by apply table_of_rows_rectangular.
  split; [exact R|].
  destruct (proj1 (df_sorted_ranking no_text_number sort_values_raises)
              (DataFrame_of_rows (map media_to_row three_posts))
              (Some 100%Z) R)
    as (order & P & _ & _ & _ & S & _).
  exists order. split; [exact P|]. split; [reflexivity | exact S].
Defined.
